(** * I2C/TWI library for AVR-GCC (lab6-i2c-scan/lib/twi/twi.c)

    A shallow embedding of the TWI bus driver and of the bus scanner.
    The memory-mapped registers of the peripheral are an interface
    ([Peripheral]); the driver is written in a small state monad over
    a [world] that holds the hardware, the chronological log of every
    register access and the bytes pushed to the UART.  A busy-wait
    loop takes its number of polls from the monad's fuel: running out
    of fuel is [None]. *)

From Stdlib Require Import ZArith Ascii List Sorted Lia.
From stdpp Require Import base option numbers list gmap strings.
From Equations Require Import Equations.

Local Open Scope Z_scope.

(** ** Machine integers *)

(** Conversion to [uint8_t]. *)
Definition to_u8 (v : Z) : Z := v mod 256.

(** [(1 << n)] *)
Definition bit (n : Z) : Z := Z.shiftl 1 n.

(** ** Register bit names of the ATmega328P (avr/io.h) *)

Module Avr.
Definition TWINT : Z := 7.
Definition TWEA : Z := 6.
Definition TWSTA : Z := 5.
Definition TWSTO : Z := 4.
Definition TWEN : Z := 2.
Definition TWPS1 : Z := 1.
Definition TWPS0 : Z := 0.
End Avr.
Import Avr.

(** ** twi.h

    The header is not part of the sources at hand: the macros that
    twi.c takes from it are the fields of a configuration, and the
    driver is parametric in it. *)

Class twi_h : Type := {
  TWI_SDA_PIN : Z;
  TWI_SCL_PIN : Z;
  TWI_BIT_RATE_REG : Z;
  TWI_ACK : Z;
  TWI_WRITE : Z
}.

(** ** The peripheral *)

(** The registers twi.c touches; [DDR_TWI_PORT] is [DDR(TWI_PORT)]. *)
Inductive reg : Set := TWBR | TWSR | TWDR | TWCR | TWI_PORT | DDR_TWI_PORT.

(** A volatile read may change the hardware (time passes, a flag comes
    up), so it returns the next hardware state with the value. *)
Class Peripheral (H : Type) : Type := {
  reg_write : reg -> Z -> H -> H;
  reg_read : reg -> H -> Z * H
}.

Inductive event : Set :=
| Wr (r : reg) (v : Z)
| Rd (r : reg) (v : Z).

Definition is_write (e : event) : bool :=
  match e with Wr _ _ => true | Rd _ _ => false end.

Record world (H : Type) : Type := World {
  hw : H;
  log : list event;
  uart : list ascii
}.
Arguments World {H} _ _ _.
Arguments hw {H} _.
Arguments log {H} _.
Arguments uart {H} _.

(** ** The monad: fuel reader, world state, [None] when a wait outlasts the fuel *)

Definition M (H A : Type) : Type := nat -> world H -> option (A * world H).

Definition ret {H A} (a : A) : M H A := fun _ w => Some (a, w).

Definition bind {H A B} (m : M H A) (k : A -> M H B) : M H B :=
  fun fuel w =>
    match m fuel w with
    | Some (a, w') => k a fuel w'
    | None => None
    end.

Definition fail {H A} : M H A := fun _ _ => None.

Declare Scope twi_scope.
Delimit Scope twi_scope with twi.
Notation "x <- m ;; k" := (bind m (fun x => k))
  (at level 100, m at next level, right associativity) : twi_scope.
Notation "m ;; k" := (bind m (fun _ => k))
  (at level 100, right associativity) : twi_scope.
Local Open Scope twi_scope.

Section Driver.
Context {H : Type} `{Peripheral H} {cfg : twi_h}.

(** A store to an 8-bit register. *)
Definition wr (r : reg) (v : Z) : M H unit := fun _ w =>
  Some (tt, World (reg_write r (to_u8 v) (hw w))
                  (log w ++ [Wr r (to_u8 v)])
                  (uart w)).

(** A load from an 8-bit register. *)
Definition rd (r : reg) : M H Z := fun _ w =>
  let (v, h) := reg_read r (hw w) in
  Some (to_u8 v, World h (log w ++ [Rd r (to_u8 v)]) (uart w)).

(** [uart_puts] of Peter Fleury's UART library, on a string given by
    its characters: the byte-sink is append-only. *)
Definition uart_puts (s : list ascii) : M H unit := fun _ w =>
  Some (tt, World (hw w) (log w) (uart w ++ s)).

(** [while ((TWCR & (1<<TWINT)) == 0);] with at most [n] polls. *)
Fixpoint while_TWINT_clear (n : nat) : M H unit :=
  match n with
  | O => fail
  | S n' =>
      v <- rd TWCR ;;
      if Z.land v (bit TWINT) =? 0 then while_TWINT_clear n' else ret tt
  end.

Definition wait_TWINT : M H unit := fun fuel => while_TWINT_clear fuel fuel.

Definition twi_init : M H unit :=
  d <- rd DDR_TWI_PORT ;;
  wr DDR_TWI_PORT (Z.land d (Z.lnot (Z.lor (bit TWI_SDA_PIN) (bit TWI_SCL_PIN)))) ;;
  p <- rd TWI_PORT ;;
  wr TWI_PORT (Z.lor p (Z.lor (bit TWI_SDA_PIN) (bit TWI_SCL_PIN))) ;;
  s <- rd TWSR ;;
  wr TWSR (Z.land s (Z.lnot (Z.lor (bit TWPS1) (bit TWPS0)))) ;;
  wr TWBR TWI_BIT_RATE_REG.

Definition twi_start : M H unit :=
  wr TWCR (Z.lor (Z.lor (bit TWINT) (bit TWSTA)) (bit TWEN)) ;;
  wait_TWINT.

Definition twi_write (data : Z) : M H Z :=
  wr TWDR data ;;
  wr TWCR (Z.lor (bit TWINT) (bit TWEN)) ;;
  wait_TWINT ;;
  s <- rd TWSR ;;
  let twi_status := to_u8 (Z.land s 0xf8) in
  if (twi_status =? 0x18) || (twi_status =? 0x28) || (twi_status =? 0x40)
  then ret 0
  else ret 1.

(** The parameter is a [uint8_t]: the argument is converted on entry,
    and it is the converted value that is compared with TWI_ACK. *)
Definition twi_read (ack : Z) : M H Z :=
  (if to_u8 ack =? TWI_ACK
   then wr TWCR (Z.lor (Z.lor (bit TWINT) (bit TWEN)) (bit TWEA))
   else wr TWCR (Z.lor (bit TWINT) (bit TWEN))) ;;
  wait_TWINT ;;
  rd TWDR.

Definition twi_stop : M H unit :=
  wr TWCR (Z.lor (Z.lor (bit TWINT) (bit TWSTO)) (bit TWEN)).

End Driver.

(** ** stdlib.h: [itoa]

    avr-libc's conversion, for a value that is not negative: the
    digits come out least significant first, the terminating NUL is
    appended and the digits are reversed in place.  Each character is
    a store through the pointer the caller passes. *)

Definition NUL : ascii := Ascii.zero.

Definition digit_char (d : Z) : ascii :=
  if d <? 10
  then ascii_of_N (Z.to_N (48 + d))
  else ascii_of_N (Z.to_N (97 + d - 10)).

Fixpoint itoa_rev (n : nat) (val radix : Z) : list ascii :=
  match n with
  | O => []
  | S n' =>
      digit_char (val mod radix) ::
      (if val / radix =? 0 then [] else itoa_rev n' (val / radix) radix)
  end.

Definition itoa_digits (val radix : Z) : list ascii :=
  rev (itoa_rev (S (Z.to_nat val)) val radix).

(** The stores of [itoa(val, s, radix)]: offset in the frame and character. *)
Definition itoa_stores (val : Z) (s : nat) (radix : Z) : list (nat * ascii) :=
  let cs := itoa_digits val radix ++ [NUL] in
  zip (seq s (length cs)) cs.

Definition store (m : gmap nat ascii) (st : nat * ascii) : gmap nat ascii :=
  <[st.1 := st.2]> m.

Definition itoa (val : Z) (s : nat) (radix : Z) (m : gmap nat ascii) : gmap nat ascii :=
  foldl store m (itoa_stores val s radix).

(** Reading a C string at offset [p]: up to the first NUL; a cell
    that was never stored to has no value to read. *)
Fixpoint read_cstr (n : nat) (m : gmap nat ascii) (p : nat) : option (list ascii) :=
  match n with
  | O => None
  | S n' =>
      match m !! p with
      | None => None
      | Some c =>
          if Ascii.eqb c NUL then Some []
          else option_map (cons c) (read_cstr n' m (S p))
      end
  end.

(** ** The scanner *)

(** [char string[2]]: the buffer sits at offset 0 of the frame of
    [twi_scan]; the frame is flat, a store past the buffer lands in
    the bytes that follow it. *)
Definition string : nat := 0%nat.
Definition sizeof_string : nat := 2%nat.

Definition in_string (off : nat) : bool :=
  (string <=? off)%nat && (off <? string + sizeof_string)%nat.

Definition crlf : list ascii := ["013"; "010"]%char.

(** The characters of a string literal. *)
Definition chars (s : String.string) : list ascii := String.list_ascii_of_string s.

Section Scanner.
Context {H : Type} `{Peripheral H} {cfg : twi_h}.

(** [uart_puts(s)] for a pointer [s] into the frame. *)
Definition uart_puts_at (m : gmap nat ascii) (s : nat) : M H unit :=
  match read_cstr (S (size m)) m s with
  | Some cs => uart_puts cs
  | None => fail
  end.

(** The byte of a probe: [(sla<<1) | TWI_WRITE], as the [uint8_t]
    argument of [twi_write]. *)
Definition probe_byte (sla : Z) : Z :=
  to_u8 (Z.lor (Z.shiftl sla 1) TWI_WRITE).

(** [twi_start(); ack = twi_write(...); twi_stop();] *)
Definition probe (sla : Z) : M H Z :=
  twi_start ;;
  ack <- twi_write (probe_byte sla) ;;
  twi_stop ;;
  ret ack.

(** The body of the [for] loop; the frame is the only local that
    outlives an iteration. *)
Definition scan_body (sla : Z) (fr : gmap nat ascii) : M H (gmap nat ascii) :=
  ack <- probe sla ;;
  if ack =? 0 then
    uart_puts crlf ;;
    let fr' := itoa sla string 16 fr in
    uart_puts_at fr' string ;;
    ret fr'
  else ret fr.

(** [for (uint8_t sla = 8; sla < 120; sla++)] *)
Equations? scan_loop (sla : Z) (fr : gmap nat ascii) (fuel : nat) (w : world H)
  : option (gmap nat ascii * world H) by wf (Z.to_nat (120 - sla)) lt :=
  scan_loop sla fr fuel w with Z_lt_dec sla 120 := {
    | left _ with scan_body sla fr fuel w := {
        | Some (fr', w') => scan_loop (to_u8 (sla + 1)) fr' fuel w'
        | None => None }
    | right _ => Some (fr, w) }.
Proof.
  unfold to_u8.
  destruct (Z_lt_dec (sla + 1) 0) as [Hneg | Hpos].
  - pose proof (Z.mod_pos_bound (sla + 1) 256 eq_refl). lia.
  - rewrite Z.mod_small by lia. lia.
Qed.

Definition twi_scan : M H unit :=
  _ <- scan_loop 8 ∅ ;;
  ret tt.

End Scanner.

(** ** A simulated bus

    Devices answer at the addresses [devs]; an operation started by
    writing TWINT into TWCR completes at the poll number [latency]
    (counting from 0).  After a stop condition TWINT stays low. *)

Record sim : Type := Sim {
  regs : reg -> Z;
  pending : option nat;
  after_start : bool;
  selected : bool
}.

Definition reg_eqb (a b : reg) : bool :=
  match a, b with
  | TWBR, TWBR | TWSR, TWSR | TWDR, TWDR | TWCR, TWCR
  | TWI_PORT, TWI_PORT | DDR_TWI_PORT, DDR_TWI_PORT => true
  | _, _ => false
  end.

Definition upd (r : reg) (v : Z) (f : reg -> Z) : reg -> Z :=
  fun r' => if reg_eqb r r' then v else f r'.

Definition sim_write (devs : list Z) (latency : nat) (r : reg) (v : Z) (s : sim) : sim :=
  match r with
  | TWCR =>
      if Z.testbit v TWINT then
        if Z.testbit v TWSTO then
          Sim (upd TWSR 0xf8 (upd TWCR v (regs s))) None false false
        else if Z.testbit v TWSTA then
          Sim (upd TWSR 0x08 (upd TWCR v (regs s))) (Some latency) true false
        else if after_start s then
          let present := existsb (Z.eqb (Z.shiftr (regs s TWDR) 1)) devs in
          let st :=
            if Z.testbit (regs s TWDR) 0
            then (if present then 0x40 else 0x48)
            else (if present then 0x18 else 0x20) in
          Sim (upd TWSR st (upd TWCR v (regs s))) (Some latency) false present
        else
          Sim (upd TWSR (if selected s then 0x28 else 0x30) (upd TWCR v (regs s)))
              (Some latency) false (selected s)
      else Sim (upd TWCR v (regs s)) (pending s) (after_start s) (selected s)
  | _ => Sim (upd r v (regs s)) (pending s) (after_start s) (selected s)
  end.

Definition sim_read (r : reg) (s : sim) : Z * sim :=
  match r with
  | TWCR =>
      match pending s with
      | Some O => (Z.lor (regs s TWCR) (bit TWINT), s)
      | Some (S n) =>
          (Z.land (regs s TWCR) 0x7f,
           Sim (regs s) (Some n) (after_start s) (selected s))
      | None => (Z.land (regs s TWCR) 0x7f, s)
      end
  | _ => (regs s r, s)
  end.

Definition sim_bus (devs : list Z) (latency : nat) : Peripheral sim :=
  {| reg_write := sim_write devs latency; reg_read := sim_read |}.

(** The devices of the bus, as the set a scan is to report. *)
Definition present (devs : list Z) (a : Z) : bool := existsb (Z.eqb a) devs.

Definition sim_idle : sim := Sim (fun _ => 0) None false false.

(** A peripheral whose completion flag never comes up. *)
#[export] Instance dead_bus : Peripheral unit :=
  {| reg_write := fun _ _ h => h; reg_read := fun _ h => (0, h) |}.

Definition power_on {H} (h : H) : world H := World h [] [].

(** A configuration for concrete runs: SDA and SCL on pins 4 and 5,
    a bit-rate value for 100 kHz, and the direction bit [W]. *)
Definition example_twi_h (W : Z) : twi_h :=
  {| TWI_SDA_PIN := 4; TWI_SCL_PIN := 5; TWI_BIT_RATE_REG := 72;
     TWI_ACK := 0; TWI_WRITE := W |}.

(** ** Vocabulary of the statements *)

Section Vocabulary.
Context {H : Type} `{Peripheral H} {cfg : twi_h}.

(** The hardware after [k] polls of TWCR. *)
Fixpoint after_polls (k : nat) (h : H) : H :=
  match k with
  | O => h
  | S k' => after_polls k' (snd (reg_read TWCR h))
  end.

(** Does poll number [k] (from 0) of TWCR show the completion flag? *)
Definition flag_at (h : H) (k : nat) : bool :=
  negb (Z.land (to_u8 (fst (reg_read TWCR (after_polls k h)))) (bit TWINT) =? 0).

(** The hardware answers every operation it is asked to start
    (TWINT written with TWSTO clear) within [fuel] polls. *)
Definition responsive (fuel : nat) : Prop :=
  forall (v : Z) (h : H),
    Z.testbit v TWINT = true -> Z.testbit v TWSTO = false ->
    exists k, (k < fuel)%nat /\ flag_at (reg_write TWCR v h) k = true.

(** A fixed set [D] of responding devices: whatever happened before,
    a probe of [a] completes and is acknowledged exactly when [D a]. *)
Definition answers (D : Z -> bool) (fuel : nat) : Prop :=
  forall (a : Z) (w : world H),
    8 <= a <= 119 ->
    exists w', probe a fuel w = Some ((if D a then 0 else 1), w').

(** The five operations of the driver. *)
Inductive primitive : Set :=
| P_init
| P_start
| P_write (data : Z)
| P_read (ack : Z)
| P_stop.

Definition run (p : primitive) : M H unit :=
  match p with
  | P_init => twi_init
  | P_start => twi_start
  | P_write data => _ <- twi_write data ;; ret tt
  | P_read ack => _ <- twi_read ack ;; ret tt
  | P_stop => twi_stop
  end.

(** The primitives whose body has the [while] loop on TWINT. *)
Definition blocking (p : primitive) : bool :=
  match p with
  | P_start | P_write _ | P_read _ => true
  | P_init | P_stop => false
  end.

(** The hardware once the primitive has written its registers: where
    a blocking primitive begins to poll. *)
Definition armed (p : primitive) (h : H) : H :=
  match p with
  | P_init =>
      match twi_init O (power_on h) with
      | Some (_, w) => hw w
      | None => h
      end
  | P_start => reg_write TWCR 0xa4 h
  | P_write data => reg_write TWCR 0x84 (reg_write TWDR (to_u8 data) h)
  | P_read ack => reg_write TWCR (if to_u8 ack =? TWI_ACK then 0xc4 else 0x84) h
  | P_stop => reg_write TWCR 0x94 h
  end.

(** The world after a store of the 8-bit value [v] to [r]. *)
Definition wrote (r : reg) (v : Z) (w : world H) : world H :=
  World (reg_write r v (hw w)) (log w ++ [Wr r v]) (uart w).

(** The world after a load of [r]. *)
Definition loaded (r : reg) (w : world H) : world H :=
  World (snd (reg_read r (hw w)))
        (log w ++ [Rd r (to_u8 (fst (reg_read r (hw w))))])
        (uart w).

(** The classification at the end of [twi_write], on the value read
    from TWSR. *)
Definition classify (s : Z) : Z :=
  let twi_status := to_u8 (Z.land s 0xf8) in
  if (twi_status =? 0x18) || (twi_status =? 0x28) || (twi_status =? 0x40)
  then 0
  else 1.

(** The register writes of one probe. *)
Definition probe_writes (sla : Z) : list event :=
  [Wr TWCR 0xa4; Wr TWDR (probe_byte sla); Wr TWCR 0x84; Wr TWCR 0x94].

(** The 7-bit addresses put on the bus: the upper seven bits of
    every byte stored to TWDR. *)
Definition probed (evs : list event) : list Z :=
  List.flat_map
    (fun e => match e with Wr TWDR v => [Z.shiftr v 1] | _ => [] end) evs.

(** The loop of [twi_scan] unrolled over a list of addresses. *)
Fixpoint scan_list (l : list Z) (fr : gmap nat ascii) : M H (gmap nat ascii) :=
  match l with
  | [] => ret fr
  | sla :: l' => fr' <- scan_body sla fr ;; scan_list l' fr'
  end.

End Vocabulary.

(** The report line of a device. *)
Definition line (a : Z) : list ascii := crlf ++ itoa_digits a 16.

(** What one scan prints for the devices [D]. *)
Definition report (D : Z -> bool) : list ascii :=
  List.flat_map line (List.filter D (seqZ 8 112)).

(** The two-character hexadecimal encoding the specification speaks
    of: both nibbles, the high one first. *)
Definition hex2 (a : Z) : list ascii := [digit_char (a / 16); digit_char (a mod 16)].

(** Modelled from the spec: the value of the macro TWI_WRITE of twi.h,
    which is missing from the sources.  The specification calls it
    WRITE_DIRECTION_BIT and says that or-ing it in sets the low bit of
    the probe byte. *)
Definition WRITE_DIRECTION_BIT : Z := 1.

(** The registers a primitive other than [twi_init] stores to, in
    order, with the values stored. *)
Definition writes_of {cfg : twi_h} (p : primitive) : list event :=
  match p with
  | P_init => []
  | P_start => [Wr TWCR 0xa4]
  | P_write data => [Wr TWDR (to_u8 data); Wr TWCR 0x84]
  | P_read ack => [Wr TWCR (if to_u8 ack =? TWI_ACK then 0xc4 else 0x84)]
  | P_stop => [Wr TWCR 0x94]
  end.

(** The characters a report is made of: CR, LF, the decimal digits and
    the letters a to f. *)
Definition is_report_char (c : ascii) : bool :=
  let n := Z.of_N (N_of_ascii c) in
  (n =? 13) || (n =? 10) || ((48 <=? n) && (n <=? 57)) || ((97 <=? n) && (n <=? 102)).

(** The first poll that shows the flag. *)
Definition first_flag {H : Type} `{Peripheral H} (h : H) (k : nat) : Prop :=
  flag_at h k = true /\ forall j, (j < k)%nat -> flag_at h j = false.

Definition is_poll (e : event) : bool :=
  match e with Rd TWCR _ => true | _ => false end.

(** * Facts *)

(** ** The busy-wait loop *)

Section DriverFacts.
Context {H : Type} `{Peripheral H} {cfg : twi_h}.

Lemma flag_at_0 (h : H) :
  flag_at h 0 = negb (Z.land (to_u8 (fst (reg_read TWCR h))) (bit TWINT) =? 0).
Proof. reflexivity. Qed.

Lemma flag_at_S (h : H) (k : nat) :
  flag_at h (S k) = flag_at (snd (reg_read TWCR h)) k.
Proof. reflexivity. Qed.

(** The loop gives up exactly when none of its polls shows the flag. *)
Lemma while_TWINT_clear_None (n fuel : nat) (w : world H) :
  while_TWINT_clear n fuel w = None <->
  (forall k, (k < n)%nat -> flag_at (hw w) k = false).
Proof.
  revert w. induction n as [|n IH]; intros w.
  - split; [intros _ k Hk; lia | reflexivity].
  - cbn [while_TWINT_clear]. unfold bind, rd.
    destruct (reg_read TWCR (hw w)) as [v h] eqn:Hrd.
    destruct (Z.land (to_u8 v) (bit TWINT) =? 0) eqn:Hfl.
    + rewrite IH. cbn [hw]. split.
      * intros Hall [|k] Hk.
        -- rewrite flag_at_0, Hrd. cbn [fst]. now rewrite Hfl.
        -- rewrite flag_at_S, Hrd. apply Hall. lia.
      * intros Hall k Hk. specialize (Hall (S k)).
        rewrite flag_at_S, Hrd in Hall. apply Hall. lia.
    + split; [discriminate|].
      intros Hall. specialize (Hall O).
      rewrite flag_at_0, Hrd in Hall. cbn [fst] in Hall.
      rewrite Hfl in Hall. cbn in Hall. discriminate Hall. lia.
Qed.

(** A wait only reads: it writes no register and prints nothing. *)
Lemma while_TWINT_clear_Some (n fuel : nat) (w w' : world H) (u : unit) :
  while_TWINT_clear n fuel w = Some (u, w') ->
  uart w' = uart w /\
  exists evs, log w' = log w ++ evs /\ List.filter is_write evs = [].
Proof.
  revert w. induction n as [|n IH]; intros w; [discriminate|].
  cbn [while_TWINT_clear]. unfold bind, rd.
  destruct (reg_read TWCR (hw w)) as [v h] eqn:Hrd.
  destruct (Z.land (to_u8 v) (bit TWINT) =? 0).
  - intros Hrun. apply IH in Hrun as (Hu & evs & Hl & Hf).
    cbn [uart log] in *. split; [exact Hu|].
    exists (Rd TWCR (to_u8 v) :: evs). split.
    + rewrite Hl, <- app_assoc. reflexivity.
    + cbn. exact Hf.
  - unfold ret. intros [= Hw]. subst w'. cbn. split; [reflexivity|].
    exists [Rd TWCR (to_u8 v)]. split; reflexivity.
Qed.

Lemma wait_TWINT_flag (fuel k : nat) (w : world H) :
  (k < fuel)%nat -> flag_at (hw w) k = true ->
  exists w', wait_TWINT fuel w = Some (tt, w').
Proof.
  intros Hk Hf. unfold wait_TWINT.
  destruct (while_TWINT_clear fuel fuel w) as [[[] w']|] eqn:Hrun.
  - now exists w'.
  - rewrite while_TWINT_clear_None in Hrun.
    rewrite (Hrun k Hk) in Hf. discriminate.
Qed.

(** A bounded search for the first poll that shows the flag. *)
Lemma flag_search (h : H) (n : nat) :
  (forall k, (k < n)%nat -> flag_at h k = false) \/
  (exists k, (k < n)%nat /\ flag_at h k = true).
Proof.
  induction n as [|n [IH | (k & Hk & Hf)]].
  - left. intros k Hk. lia.
  - destruct (flag_at h n) eqn:Hn.
    + right. exists n. split; [lia | exact Hn].
    + left. intros k Hk.
      destruct (Nat.eq_dec k n) as [-> | Hne]; [exact Hn | apply IH; lia].
  - right. exists k. split; [lia | exact Hf].
Qed.

Lemma wait_TWINT_returns_iff (w : world H) :
  (exists fuel, wait_TWINT fuel w <> None) <->
  (exists k, flag_at (hw w) k = true).
Proof.
  split.
  - intros [fuel Hrun]. unfold wait_TWINT in Hrun.
    destruct (flag_search (hw w) fuel) as [Hall | (k & _ & Hf)].
    + apply (while_TWINT_clear_None fuel fuel w) in Hall. congruence.
    + now exists k.
  - intros [k Hf]. exists (S k).
    destruct (wait_TWINT_flag (S k) k w) as [w' Hw']; [lia | exact Hf |].
    congruence.
Qed.

Lemma wait_TWINT_never (w : world H) :
  (forall k, flag_at (hw w) k = false) ->
  forall fuel, wait_TWINT fuel w = None.
Proof.
  intros Hall fuel. unfold wait_TWINT.
  apply while_TWINT_clear_None. intros k _. apply Hall.
Qed.

End DriverFacts.

(** ** The primitives, step by step *)

Section PrimitiveFacts.
Context {H : Type} `{Peripheral H} {cfg : twi_h}.

Lemma wr_run (r : reg) (v : Z) (fuel : nat) (w : world H) :
  wr r v fuel w = Some (tt, wrote r (to_u8 v) w).
Proof. reflexivity. Qed.

Lemma rd_run (r : reg) (fuel : nat) (w : world H) :
  rd r fuel w = Some (to_u8 (fst (reg_read r (hw w))), loaded r w).
Proof. unfold rd, loaded. now destruct (reg_read r (hw w)). Qed.

Lemma twi_start_run (fuel : nat) (w : world H) :
  twi_start fuel w = wait_TWINT fuel (wrote TWCR 0xa4 w).
Proof. reflexivity. Qed.

Lemma twi_stop_run (fuel : nat) (w : world H) :
  twi_stop fuel w = Some (tt, wrote TWCR 0x94 w).
Proof. reflexivity. Qed.

Lemma twi_write_run (data : Z) (fuel : nat) (w : world H) :
  twi_write data fuel w =
  match wait_TWINT fuel (wrote TWCR 0x84 (wrote TWDR (to_u8 data) w)) with
  | Some (_, w1) =>
      Some (classify (to_u8 (fst (reg_read TWSR (hw w1)))), loaded TWSR w1)
  | None => None
  end.
Proof.
  unfold twi_write, bind. rewrite !wr_run.
  change (to_u8 (Z.lor (bit TWINT) (bit TWEN))) with 0x84.
  destruct (wait_TWINT fuel _) as [[[] w1]|]; [|reflexivity].
  rewrite rd_run. unfold classify, ret.
  now destruct (_ || _).
Qed.

Lemma twi_read_run (ack : Z) (fuel : nat) (w : world H) :
  twi_read ack fuel w =
  match wait_TWINT fuel (wrote TWCR (if to_u8 ack =? TWI_ACK then 0xc4 else 0x84) w) with
  | Some (_, w1) => Some (to_u8 (fst (reg_read TWDR (hw w1))), loaded TWDR w1)
  | None => None
  end.
Proof.
  unfold twi_read, bind.
  destruct (to_u8 ack =? TWI_ACK); rewrite wr_run.
  - change (to_u8 (Z.lor (Z.lor (bit TWINT) (bit TWEN)) (bit TWEA))) with 0xc4.
    destruct (wait_TWINT fuel _) as [[[] w1]|]; [apply rd_run | reflexivity].
  - change (to_u8 (Z.lor (bit TWINT) (bit TWEN))) with 0x84.
    destruct (wait_TWINT fuel _) as [[[] w1]|]; [apply rd_run | reflexivity].
Qed.

(** A blocking primitive returns exactly when its wait does; the
    wait begins on the hardware [armed]. *)
Lemma run_blocking (p : primitive) (w : world H) :
  blocking p = true ->
  exists w0, hw w0 = armed p (hw w) /\
             forall fuel, run p fuel w = None <-> wait_TWINT fuel w0 = None.
Proof.
  destruct p as [| |data|ack|]; try discriminate; intros _.
  - exists (wrote TWCR 0xa4 w). split; [reflexivity|].
    intros fuel. cbn [run]. now rewrite twi_start_run.
  - exists (wrote TWCR 0x84 (wrote TWDR (to_u8 data) w)). split; [reflexivity|].
    intros fuel. cbn [run]. unfold bind. rewrite twi_write_run.
    destruct (wait_TWINT fuel _) as [[[] w1]|]; [|tauto].
    unfold ret. split; discriminate.
  - exists (wrote TWCR (if to_u8 ack =? TWI_ACK then 0xc4 else 0x84) w).
    split; [reflexivity|].
    intros fuel. cbn [run]. unfold bind. rewrite twi_read_run.
    destruct (wait_TWINT fuel _) as [[[] w1]|]; [|tauto].
    unfold ret. split; discriminate.
Qed.

End PrimitiveFacts.

(** ** Machine words *)

Lemma to_u8_range (v : Z) : 0 <= to_u8 v < 256.
Proof. unfold to_u8. apply Z.mod_pos_bound. reflexivity. Qed.

Lemma to_u8_small (v : Z) : 0 <= v < 256 -> to_u8 v = v.
Proof. intros Hv. unfold to_u8. now apply Z.mod_small. Qed.

Lemma to_u8_status_mask (s : Z) : to_u8 (Z.land s 0xf8) = Z.land s 0xf8.
Proof.
  unfold to_u8. change 256 with (2 ^ 8).
  rewrite <- Z.land_ones by lia. rewrite <- Z.land_assoc. reflexivity.
Qed.

Lemma classify_ack (s : Z) :
  classify s = 0 <->
  Z.land s 0xf8 = 0x18 \/ Z.land s 0xf8 = 0x28 \/ Z.land s 0xf8 = 0x40.
Proof.
  unfold classify. rewrite to_u8_status_mask.
  destruct (Z.eqb_spec (Z.land s 0xf8) 0x18) as [E1|N1]; cbn [orb].
  { split; [now left | reflexivity]. }
  destruct (Z.eqb_spec (Z.land s 0xf8) 0x28) as [E2|N2]; cbn [orb].
  { split; [now (right; left) | reflexivity]. }
  destruct (Z.eqb_spec (Z.land s 0xf8) 0x40) as [E3|N3]; cbn [orb].
  { split; [now (right; right) | reflexivity]. }
  split; [discriminate | intros [?|[?|?]]; contradiction].
Qed.

Lemma classify_binary (s : Z) : classify s = 0 \/ classify s = 1.
Proof. unfold classify. destruct (_ || _); [now left | now right]. Qed.

(** The completion flag survives the truncation of the value read. *)
Lemma TWINT_visible (x : Z) :
  (Z.land (to_u8 (Z.lor x (bit TWINT))) (bit TWINT) =? 0) = false.
Proof.
  apply Z.eqb_neq. intros Hz.
  assert (Hb : Z.testbit (Z.land (to_u8 (Z.lor x (bit TWINT))) (bit TWINT)) 7 = true).
  { unfold to_u8. change 256 with (2 ^ 8).
    rewrite Z.land_spec, Z.mod_pow2_bits_low, Z.lor_spec by lia.
    change (Z.testbit (bit TWINT) 7) with true.
    now rewrite orb_true_r. }
  rewrite Hz, Z.bits_0 in Hb. discriminate.
Qed.

(** ** The simulated bus answers within its latency *)

Lemma sim_flag_at_latency (devs : list Z) (latency n : nat)
      (r : reg -> Z) (a s : bool) :
  @flag_at sim (sim_bus devs latency) (Sim r (Some n) a s) n = true.
Proof.
  induction n as [|n IH].
  - rewrite flag_at_0. cbn. now rewrite TWINT_visible.
  - rewrite flag_at_S. cbn. exact IH.
Qed.

Lemma sim_responsive (devs : list Z) (latency fuel : nat) :
  (latency < fuel)%nat -> @responsive sim (sim_bus devs latency) fuel.
Proof.
  intros Hlt v h Hint Hsto. exists latency. split; [exact Hlt|].
  change (@reg_write sim (sim_bus devs latency) TWCR v h)
    with (sim_write devs latency TWCR v h).
  unfold sim_write. rewrite Hint, Hsto.
  destruct (Z.testbit v TWSTA); [|destruct (after_start h)];
    apply sim_flag_at_latency.
Qed.

(** * The claims about the driver primitives *)

(** C9, as stated, fails: the claim speaks of every primitive of the
    driver, and [twi_stop] is one of them.  On a peripheral whose
    completion flag never comes up, [twi_stop] returns all the same,
    even with no poll allowed. *)
Lemma twi_stop_returns_without_flag :
  (forall k, @flag_at unit dead_bus
               (@armed unit dead_bus (example_twi_h 0) P_stop tt) k = false) /\
  @run unit dead_bus (example_twi_h 0) P_stop 0%nat (power_on tt)
  = Some (tt, World tt [Wr TWCR 0x94] []).
Proof.
  split; [|reflexivity].
  intros k. induction k as [|k IH]; [reflexivity|].
  rewrite flag_at_S. exact IH.
Qed.

(** C9, amended: the primitives that wait ([twi_start], [twi_write],
    [twi_read]) spin on TWINT with no timeout.  Such a call returns,
    for some number of polls, exactly when some poll of TWCR after the
    primitive's register writes shows the flag; if no poll ever does,
    the call returns for no number of polls. *)
Theorem blocking_primitive_returns_iff_flag
        {H : Type} `{Peripheral H} {cfg : twi_h}
        (p : primitive) (w : world H) :
  blocking p = true ->
  ((exists fuel, run p fuel w <> None) <->
   (exists k, flag_at (armed p (hw w)) k = true)) /\
  ((forall k, flag_at (armed p (hw w)) k = false) ->
   forall fuel, run p fuel w = None).
Proof.
  intros Hb. destruct (run_blocking p w Hb) as (w0 & Hw0 & Hrun).
  rewrite <- Hw0. split.
  - rewrite <- wait_TWINT_returns_iff. split; intros [fuel Hf]; exists fuel.
    + now rewrite <- Hrun.
    + now rewrite Hrun.
  - intros Hall fuel. apply Hrun. now apply wait_TWINT_never.
Qed.

Lemma blocking_primitive_returns_iff_flag_witness :
  @blocking P_start = true /\
  ((exists fuel, @run sim (sim_bus [0x3c] 3) (example_twi_h 0) P_start fuel
                      (power_on sim_idle) <> None) <->
   (exists k, @flag_at sim (sim_bus [0x3c] 3)
                (@armed sim (sim_bus [0x3c] 3) (example_twi_h 0) P_start
                        (hw (power_on sim_idle))) k = true)).
Proof.
  split; [reflexivity|].
  apply (@blocking_primitive_returns_iff_flag sim (sim_bus [0x3c] 3)
           (example_twi_h 0) P_start (power_on sim_idle)).
  reflexivity.
Defined.

(** C10: [twi_stop] stores the stop condition into TWCR and returns,
    on every peripheral and with any number of polls allowed (even
    none): it reads no register.  A [twi_start] that follows begins
    at once on the world the stop left. *)
Theorem twi_stop_nonblocking
        {H : Type} `{Peripheral H} {cfg : twi_h}
        (fuel : nat) (w : world H) :
  exists w',
    twi_stop fuel w = Some (tt, w') /\
    hw w' = reg_write TWCR 0x94 (hw w) /\
    log w' = log w ++ [Wr TWCR 0x94] /\
    uart w' = uart w /\
    (twi_stop ;; twi_start) fuel w = twi_start fuel w'.
Proof.
  exists (wrote TWCR 0x94 w). repeat split.
Qed.

(** C3: when the hardware completes the transfer (poll [k] of TWCR
    shows TWINT and [k] polls fit the fuel), [twi_write] returns, and
    its result is decided by the value [s] it then reads from TWSR:
    0 (acknowledged) exactly when [s & 0xf8] is 0x18, 0x28 or 0x40,
    and 1 (not acknowledged) for every other value. *)
Theorem twi_write_classification
        {H : Type} `{Peripheral H} {cfg : twi_h}
        (data : Z) (w : world H) (k fuel : nat) :
  flag_at (armed (P_write data) (hw w)) k = true ->
  (k < fuel)%nat ->
  exists (s r : Z) (w' : world H),
    twi_write data fuel w = Some (r, w') /\
    last (log w') = Some (Rd TWSR s) /\
    0 <= s < 256 /\
    (r = 0 <->
     Z.land s 0xf8 = 0x18 \/ Z.land s 0xf8 = 0x28 \/ Z.land s 0xf8 = 0x40) /\
    (r = 1 <->
     ~ (Z.land s 0xf8 = 0x18 \/ Z.land s 0xf8 = 0x28 \/ Z.land s 0xf8 = 0x40)).
Proof.
  intros Hflag Hk.
  destruct (wait_TWINT_flag fuel k
              (wrote TWCR 0x84 (wrote TWDR (to_u8 data) w)) Hk Hflag)
    as [w1 Hw1].
  exists (to_u8 (fst (reg_read TWSR (hw w1)))),
         (classify (to_u8 (fst (reg_read TWSR (hw w1))))),
         (loaded TWSR w1).
  split; [rewrite twi_write_run, Hw1; reflexivity|].
  split; [apply last_snoc|].
  split; [apply to_u8_range|].
  split; [apply classify_ack|].
  rewrite <- classify_ack.
  destruct (classify_binary (to_u8 (fst (reg_read TWSR (hw w1))))) as [E|E];
    rewrite E; split; congruence || discriminate || auto.
Qed.

Lemma twi_write_classification_witness :
  exists (s r : Z) (w' : world sim),
    @twi_write sim (sim_bus [0x3c] 3) 0x78 5%nat (power_on (Sim (fun _ => 0) None true false))
    = Some (r, w') /\
    last (log w') = Some (Rd TWSR s) /\
    0 <= s < 256 /\
    (r = 0 <->
     Z.land s 0xf8 = 0x18 \/ Z.land s 0xf8 = 0x28 \/ Z.land s 0xf8 = 0x40) /\
    (r = 1 <->
     ~ (Z.land s 0xf8 = 0x18 \/ Z.land s 0xf8 = 0x28 \/ Z.land s 0xf8 = 0x40)).
Proof.
  apply (@twi_write_classification sim (sim_bus [0x3c] 3) (example_twi_h 0)
           0x78 (power_on (Sim (fun _ => 0) None true false)) 3%nat 5%nat).
  - vm_compute. reflexivity.
  - lia.
Defined.

(** ** Formatting an address *)

Lemma seqZ_forallb (f : Z -> bool) (lo n : Z) :
  forallb f (seqZ lo n) = true ->
  forall a, lo <= a < lo + n -> f a = true.
Proof.
  intros Hall a Ha. rewrite forallb_forall in Hall.
  apply Hall, list_elem_of_In, elem_of_seqZ, Ha.
Qed.

(** For the addresses of the scan, [itoa] gives one digit below 16 and
    both nibbles from 16 on, and never a NUL among the digits. *)
Lemma itoa_digits_address (a : Z) :
  8 <= a <= 119 ->
  itoa_digits a 16 = (if a <? 16 then [digit_char a] else hex2 a).
Proof.
  intros Ha.
  assert (Hall : forallb
            (fun a => bool_decide
               (itoa_digits a 16 = if a <? 16 then [digit_char a] else hex2 a))
            (seqZ 8 112) = true) by (vm_compute; reflexivity).
  apply seqZ_forallb with (a := a) in Hall; [|lia].
  now apply bool_decide_eq_true_1 in Hall.
Qed.

Lemma itoa_digits_no_NUL (a : Z) :
  8 <= a <= 119 -> NUL ∉ itoa_digits a 16.
Proof.
  intros Ha.
  assert (Hall : forallb (fun a => bool_decide (NUL ∉ itoa_digits a 16))
                         (seqZ 8 112) = true) by (vm_compute; reflexivity).
  apply seqZ_forallb with (a := a) in Hall; [|lia].
  now apply bool_decide_eq_true_1 in Hall.
Qed.

Lemma stores_below (l : list ascii) (m : gmap nat ascii) (p q : nat) :
  (q < p)%nat ->
  foldl store m (zip (seq p (length l)) l) !! q = m !! q.
Proof.
  revert m p. induction l as [|c l IH]; intros m p Hq; [reflexivity|].
  cbn [length seq zip zip_with foldl]. rewrite IH by lia.
  unfold store. cbn [fst snd]. apply lookup_insert_ne. lia.
Qed.

Lemma stores_lookup (l : list ascii) (m : gmap nat ascii) (p i : nat) :
  (i < length l)%nat ->
  foldl store m (zip (seq p (length l)) l) !! (p + i)%nat = l !! i.
Proof.
  revert m p i. induction l as [|c l IH]; intros m p i Hi; [cbn in Hi; lia|].
  cbn [length seq zip zip_with foldl].
  destruct i as [|i].
  - rewrite Nat.add_0_r, stores_below by lia.
    unfold store. cbn [fst snd]. apply lookup_insert_eq.
  - replace (p + S i)%nat with (S p + i)%nat by lia.
    apply IH. cbn in Hi. lia.
Qed.

(** Consecutive cells that hold a value are counted by [size]. *)
Lemma run_of_cells_size (k : nat) (m : gmap nat ascii) (p : nat) :
  (forall i, (i < k)%nat -> is_Some (m !! (p + i)%nat)) -> (k <= size m)%nat.
Proof.
  revert m p. induction k as [|k IH]; intros m p Hrun; [lia|].
  destruct (Hrun 0%nat ltac:(lia)) as [c Hc]. rewrite Nat.add_0_r in Hc.
  rewrite <- (insert_delete_id m p c Hc).
  rewrite map_size_insert_None by apply lookup_delete_eq.
  apply le_n_S, (IH _ (S p)). intros i Hi.
  rewrite lookup_delete_ne by lia.
  replace (S p + i)%nat with (p + S i)%nat by lia. apply Hrun. lia.
Qed.

Lemma read_cstr_stores (cs : list ascii) (m : gmap nat ascii) (p n : nat) :
  NUL ∉ cs -> (length cs < n)%nat ->
  read_cstr n (foldl store m (zip (seq p (length (cs ++ [NUL]))) (cs ++ [NUL]))) p
  = Some cs.
Proof.
  revert m p n. induction cs as [|c cs IH]; intros m p n Hnul Hn.
  - destruct n as [|n]; [lia|]. cbn. unfold store. cbn [fst snd].
    now rewrite lookup_insert_eq.
  - destruct n as [|n]; [cbn in Hn; lia|].
    cbn [read_cstr].
    pose proof (stores_lookup ((c :: cs) ++ [NUL]) m p 0) as Hl.
    rewrite Nat.add_0_r in Hl. rewrite Hl by (cbn; lia). cbn [lookup].
    change (((c :: cs) ++ [NUL]) !! 0%nat) with (Some c).
    assert (Hc : Ascii.eqb c NUL = false).
    { apply Ascii.eqb_neq. intros ->. apply Hnul. left. }
    cbv iota beta. rewrite Hc.
    cbn [app length seq zip zip_with foldl].
    rewrite IH; [reflexivity | | cbn in Hn; lia].
    intros Hin. apply Hnul. now right.
Qed.

Section ScannerFacts.
Context {H : Type} `{Peripheral H} {cfg : twi_h}.

Lemma uart_puts_at_itoa (a : Z) (fr : gmap nat ascii) :
  8 <= a <= 119 ->
  uart_puts_at (itoa a string 16 fr) string = uart_puts (H:=H) (itoa_digits a 16).
Proof.
  intros Ha. unfold uart_puts_at, itoa, itoa_stores.
  rewrite read_cstr_stores; [reflexivity | now apply itoa_digits_no_NUL |].
  apply Nat.lt_succ_r.
  apply Nat.le_trans with (length (itoa_digits a 16 ++ [NUL])).
  { rewrite length_app. cbn. lia. }
  apply (run_of_cells_size _ _ string). intros i Hi.
  rewrite stores_lookup by exact Hi.
  now apply lookup_lt_is_Some.
Qed.

End ScannerFacts.

(** ** One probe *)

Section ProbeFacts.
Context {H : Type} `{Peripheral H} {cfg : twi_h}.

Lemma wait_TWINT_Some (fuel : nat) (w w' : world H) (u : unit) :
  wait_TWINT fuel w = Some (u, w') ->
  uart w' = uart w /\
  exists evs, log w' = log w ++ evs /\ List.filter is_write evs = [].
Proof. apply while_TWINT_clear_Some. Qed.

Lemma to_u8_probe_byte (sla : Z) : to_u8 (probe_byte sla) = probe_byte sla.
Proof. unfold probe_byte, to_u8. apply Z.mod_mod. lia. Qed.

(** A probe that returns has printed nothing, has written the four
    registers of [probe_writes] in this order and nothing else, and
    gives 0 or 1. *)
Lemma probe_run (sla : Z) (fuel : nat) (w w' : world H) (ack : Z) :
  probe sla fuel w = Some (ack, w') ->
  uart w' = uart w /\
  (ack = 0 \/ ack = 1) /\
  exists evs, log w' = log w ++ evs /\
              List.filter is_write evs = probe_writes sla.
Proof.
  unfold probe, bind. rewrite twi_start_run.
  destruct (wait_TWINT fuel (wrote TWCR 0xa4 w)) as [[[] w1]|] eqn:Hw1;
    [|discriminate].
  rewrite twi_write_run, to_u8_probe_byte.
  destruct (wait_TWINT fuel (wrote TWCR 0x84 (wrote TWDR (probe_byte sla) w1)))
    as [[[] w2]|] eqn:Hw2; [|discriminate].
  rewrite twi_stop_run. unfold ret. intros [= <- <-].
  apply wait_TWINT_Some in Hw1 as (Hu1 & evs1 & Hl1 & Hf1).
  apply wait_TWINT_Some in Hw2 as (Hu2 & evs2 & Hl2 & Hf2).
  cbn [uart log wrote loaded] in *.
  split; [congruence|]. split; [apply classify_binary|].
  exists ([Wr TWCR 0xa4] ++ evs1
          ++ [Wr TWDR (probe_byte sla); Wr TWCR 0x84] ++ evs2
          ++ [Rd TWSR (to_u8 (fst (reg_read TWSR (hw w2)))); Wr TWCR 0x94]).
  split.
  - rewrite Hl2, Hl1. rewrite <- !app_assoc. reflexivity.
  - rewrite !List.filter_app, Hf1, Hf2. reflexivity.
Qed.

Lemma probe_total (fuel : nat) (sla : Z) (w : world H) :
  responsive fuel -> exists ack w', probe sla fuel w = Some (ack, w').
Proof.
  intros Hresp. unfold probe, bind. rewrite twi_start_run.
  destruct (Hresp 0xa4 (hw w) eq_refl eq_refl) as (k1 & Hk1 & Hf1).
  destruct (wait_TWINT_flag fuel k1 (wrote TWCR 0xa4 w) Hk1 Hf1) as [w1 ->].
  rewrite twi_write_run.
  destruct (Hresp 0x84 (reg_write TWDR (to_u8 (probe_byte sla)) (hw w1))
                  eq_refl eq_refl) as (k2 & Hk2 & Hf2).
  destruct (wait_TWINT_flag fuel k2
              (wrote TWCR 0x84 (wrote TWDR (to_u8 (probe_byte sla)) w1)) Hk2 Hf2)
    as [w2 ->].
  rewrite twi_stop_run. unfold ret. eauto.
Qed.

(** The body of the loop, once the probe has returned. *)
Lemma scan_body_run (sla : Z) (fr : gmap nat ascii) (fuel : nat)
      (w w1 : world H) (ack : Z) :
  8 <= sla <= 119 ->
  probe sla fuel w = Some (ack, w1) ->
  scan_body sla fr fuel w =
  Some (if ack =? 0
        then (itoa sla string 16 fr,
              World (hw w1) (log w1) (uart w1 ++ line sla))
        else (fr, w1)).
Proof.
  intros Hsla Hp. unfold scan_body, bind at 1. rewrite Hp.
  destruct (ack =? 0); [|reflexivity].
  rewrite uart_puts_at_itoa by exact Hsla.
  unfold bind, uart_puts, ret, line. cbn [hw log uart].
  now rewrite <- app_assoc.
Qed.

End ProbeFacts.

(** ** The loop *)

Section LoopFacts.
Context {H : Type} `{Peripheral H} {cfg : twi_h}.

(** The [for] loop visits [sla], [sla+1], ..., 119. *)
Lemma scan_loop_list (n : nat) (sla : Z) (fr : gmap nat ascii)
      (fuel : nat) (w : world H) :
  0 <= sla -> sla + Z.of_nat n = 120 ->
  scan_loop sla fr fuel w = scan_list (seqZ sla (Z.of_nat n)) fr fuel w.
Proof.
  revert sla fr w. induction n as [|n IH]; intros sla fr w Hlo Hn.
  - simp scan_loop. destruct (Z_lt_dec sla 120) as [Hlt|Hge]; [lia|].
    simp scan_loop. reflexivity.
  - simp scan_loop. destruct (Z_lt_dec sla 120) as [Hlt|Hge]; [|lia].
    simp scan_loop.
    rewrite seqZ_cons by lia. cbn [scan_list]. unfold bind.
    destruct (scan_body sla fr fuel w) as [[fr' w']|]; simp scan_loop;
      [|reflexivity].
    rewrite <- scan_loop_equation_1, to_u8_small by lia.
    change (sla + 1) with (Z.succ sla).
    replace (Z.pred (Z.of_nat (S n))) with (Z.of_nat n) by lia.
    apply IH; lia.
Qed.

Lemma twi_scan_list (fuel : nat) (w : world H) :
  twi_scan fuel w =
  match scan_list (seqZ 8 112) ∅ fuel w with
  | Some (_, w') => Some (tt, w')
  | None => None
  end.
Proof.
  unfold twi_scan, bind.
  rewrite (scan_loop_list 112 8) by lia.
  now destruct (scan_list _ _ _ _) as [[fr' w']|].
Qed.

(** On hardware that answers, the unrolled loop returns; it probes
    the addresses in the order of the list, one probe each, and
    prints the lines of a sublist of them. *)
Lemma scan_list_responsive (fuel : nat) (l : list Z) :
  responsive fuel ->
  Forall (fun a => 8 <= a <= 119) l ->
  forall (fr : gmap nat ascii) (w : world H),
  exists fr' w' evs acked,
    scan_list l fr fuel w = Some (fr', w') /\
    log w' = log w ++ evs /\
    List.filter is_write evs = List.flat_map probe_writes l /\
    sublist acked l /\
    uart w' = uart w ++ List.flat_map line acked.
Proof.
  intros Hresp. induction 1 as [|a l Ha Hl IH]; intros fr w.
  - exists fr, w, [], []. rewrite !app_nil_r. repeat split. constructor.
  - destruct (probe_total fuel a w Hresp) as (ack & w1 & Hp).
    pose proof (scan_body_run a fr fuel w w1 ack Ha Hp) as Hb.
    apply probe_run in Hp as (Hu & _ & evs1 & Hl1 & Hf1).
    cbn [scan_list]. unfold bind. rewrite Hb.
    destruct (ack =? 0).
    + destruct (IH (itoa a string 16 fr)
                   (World (hw w1) (log w1) (uart w1 ++ line a)))
        as (fr' & w' & evs & acked & Hrun & Hlog & Hf & Hsub & Hout).
      cbn [log uart] in *.
      exists fr', w', (evs1 ++ evs), (a :: acked). rewrite Hrun.
      split; [reflexivity|]. split; [now rewrite Hlog, Hl1, app_assoc|].
      split; [cbn [List.flat_map]; now rewrite List.filter_app, Hf1, Hf|].
      split; [now constructor|].
      cbn [List.flat_map]. now rewrite Hout, Hu, <- app_assoc.
    + destruct (IH fr w1)
        as (fr' & w' & evs & acked & Hrun & Hlog & Hf & Hsub & Hout).
      exists fr', w', (evs1 ++ evs), acked. rewrite Hrun.
      split; [reflexivity|]. split; [now rewrite Hlog, Hl1, app_assoc|].
      split; [cbn [List.flat_map]; now rewrite List.filter_app, Hf1, Hf|].
      split; [now constructor|].
      now rewrite Hout, Hu.
Qed.

(** With a fixed set of devices the output is the report of the set. *)
Lemma scan_list_answers (D : Z -> bool) (fuel : nat) (l : list Z) :
  answers D fuel ->
  Forall (fun a => 8 <= a <= 119) l ->
  forall (fr : gmap nat ascii) (w : world H),
  exists fr' w',
    scan_list l fr fuel w = Some (fr', w') /\
    uart w' = uart w ++ List.flat_map line (List.filter D l).
Proof.
  intros Hans. induction 1 as [|a l Ha Hl IH]; intros fr w.
  - exists fr, w. now rewrite app_nil_r.
  - destruct (Hans a w Ha) as (w1 & Hp).
    pose proof (scan_body_run a fr fuel w w1 _ Ha Hp) as Hb.
    apply probe_run in Hp as (Hu & _).
    cbn [scan_list List.filter]. unfold bind. rewrite Hb.
    destruct (D a); cbn [Z.eqb].
    + destruct (IH (itoa a string 16 fr)
                   (World (hw w1) (log w1) (uart w1 ++ line a)))
        as (fr' & w' & Hrun & Hout).
      exists fr', w'. split; [exact Hrun|].
      cbn [uart List.flat_map] in *. now rewrite Hout, Hu, <- app_assoc.
    + destruct (IH fr w1) as (fr' & w' & Hrun & Hout).
      exists fr', w'. split; [exact Hrun|]. now rewrite Hout, Hu.
Qed.

Lemma addresses_in_range : Forall (fun a => 8 <= a <= 119) (seqZ 8 112).
Proof. apply Forall_seqZ. intros a Ha. lia. Qed.

End LoopFacts.

(** ** The address in the probe byte *)

Lemma probe_byte_cases {cfg : twi_h} (a : Z) :
  0 <= TWI_WRITE <= 1 -> 8 <= a <= 119 ->
  probe_byte a = 2 * a + TWI_WRITE /\ Z.shiftr (probe_byte a) 1 = a.
Proof.
  intros HW Ha. unfold probe_byte.
  assert (Hall : forall W, W = 0 \/ W = 1 ->
            to_u8 (Z.lor (Z.shiftl a 1) W) = 2 * a + W /\
            Z.shiftr (to_u8 (Z.lor (Z.shiftl a 1) W)) 1 = a).
  { intros W HWc.
    assert (Hc : forallb
              (fun a => forallb
                 (fun W => (to_u8 (Z.lor (Z.shiftl a 1) W) =? 2 * a + W)
                           && (Z.shiftr (to_u8 (Z.lor (Z.shiftl a 1) W)) 1 =? a))
                 [0; 1])
              (seqZ 8 112) = true) by (vm_compute; reflexivity).
    apply seqZ_forallb with (a := a) in Hc; [|lia].
    cbn [forallb] in Hc.
    apply andb_prop in Hc as [H0 H1]. apply andb_prop in H1 as [H1 _].
    destruct HWc as [-> | ->]; [apply andb_prop in H0 as [E1 E2] |
                                apply andb_prop in H1 as [E1 E2]];
      split; now apply Z.eqb_eq. }
  apply Hall. lia.
Qed.

Section LogFacts.
Context {H : Type} `{Peripheral H} {cfg : twi_h}.

Lemma probed_app (l1 l2 : list event) : probed (l1 ++ l2) = probed l1 ++ probed l2.
Proof. apply List.flat_map_app. Qed.

(** Only writes count. *)
Lemma probed_filter (evs : list event) :
  probed (List.filter is_write evs) = probed evs.
Proof.
  induction evs as [|[r v|r v] evs IH]; [reflexivity | |exact IH].
  cbn [List.filter is_write]. change (Wr r v :: ?l) with ([Wr r v] ++ l).
  now rewrite !probed_app, IH.
Qed.

Lemma probed_probe_writes (l : list Z) :
  0 <= TWI_WRITE <= 1 ->
  Forall (fun a => 8 <= a <= 119) l ->
  probed (List.flat_map probe_writes l) = l.
Proof.
  intros HW. induction 1 as [|a l Ha Hl IH]; [reflexivity|].
  cbn [List.flat_map]. rewrite probed_app, IH.
  cbn. now rewrite (proj2 (probe_byte_cases a HW Ha)).
Qed.

End LogFacts.

(** ** The simulated bus with its devices *)

Lemma TWINT_hidden (x : Z) :
  (Z.land (to_u8 (Z.land x 0x7f)) (bit TWINT) =? 0) = true.
Proof.
  apply Z.eqb_eq. unfold to_u8. change 256 with (2 ^ 8).
  rewrite <- Z.land_ones by lia. rewrite <- !Z.land_assoc.
  change (Z.land 0x7f (Z.land (Z.ones 8) (bit TWINT))) with 0.
  apply Z.land_0_r.
Qed.

Section SimFacts.
Context (devs : list Z) (latency : nat) {cfg : twi_h}.

Lemma sim_spin (n m fuel : nat) (r : reg -> Z) (a s : bool)
      (lg : list event) (u : list ascii) :
  (n < m)%nat ->
  exists lg',
    @while_TWINT_clear sim (sim_bus devs latency) m fuel
      (World (Sim r (Some n) a s) lg u)
    = Some (tt, World (Sim r (Some O) a s) lg' u).
Proof.
  revert m lg. induction n as [|n IH]; intros m lg Hm;
    (destruct m as [|m]; [lia|]); cbn [while_TWINT_clear]; unfold bind, rd;
    cbn [hw log uart reg_read sim_bus sim_read pending regs
         after_start selected].
  - rewrite TWINT_visible. unfold ret. eauto.
  - rewrite TWINT_hidden. apply IH. lia.
Qed.

Lemma sim_answers (fuel : nat) :
  0 <= TWI_WRITE <= 1 -> (latency < fuel)%nat ->
  @answers sim (sim_bus devs latency) cfg (present devs) fuel.
Proof.
  intros HW Hlat a [[r p a0 s0] lg u] Ha.
  destruct (probe_byte_cases a HW Ha) as [Hb Hshift].
  unfold probe, bind. rewrite twi_start_run.
  unfold wrote at 1. cbn [hw log uart].
  change (@reg_write sim (sim_bus devs latency) TWCR 0xa4 (Sim r p a0 s0))
    with (Sim (upd TWSR 0x08 (upd TWCR 0xa4 r)) (Some latency) true false).
  unfold wait_TWINT.
  destruct (sim_spin latency fuel fuel (upd TWSR 0x08 (upd TWCR 0xa4 r))
              true false (lg ++ [Wr TWCR 0xa4]) u Hlat) as [lg1 ->].
  rewrite twi_write_run, to_u8_probe_byte.
  unfold wrote. cbn [hw log uart].
  set (r1 := upd TWDR (probe_byte a) (upd TWSR 0x08 (upd TWCR 0xa4 r))).
  set (st := if Z.testbit (probe_byte a) 0
             then (if present devs a then 0x40 else 0x48)
             else (if present devs a then 0x18 else 0x20)).
  assert (Hst : @reg_write sim (sim_bus devs latency) TWCR 0x84
                  (@reg_write sim (sim_bus devs latency) TWDR (probe_byte a)
                     (Sim (upd TWSR 0x08 (upd TWCR 0xa4 r)) (Some O) true false))
                = Sim (upd TWSR st (upd TWCR 0x84 r1)) (Some latency) false
                      (present devs a)).
  { cbn [reg_write sim_bus sim_write regs pending after_start selected].
    change (Z.testbit 0x84 TWINT) with true.
    change (Z.testbit 0x84 TWSTO) with false.
    change (Z.testbit 0x84 TWSTA) with false.
    cbv iota. fold r1.
    change (r1 TWDR) with (probe_byte a). rewrite Hshift.
    reflexivity. }
  rewrite Hst. unfold wait_TWINT.
  destruct (sim_spin latency fuel fuel (upd TWSR st (upd TWCR 0x84 r1))
              false (present devs a)
              ((lg1 ++ [Wr TWDR (probe_byte a)]) ++ [Wr TWCR 0x84]) u Hlat)
    as [lg2 ->].
  rewrite twi_stop_run. unfold ret, loaded, wrote. cbn [hw log uart].
  change (fst (@reg_read sim (sim_bus devs latency) TWSR (Sim (upd TWSR st (upd TWCR 0x84 r1)) (Some O)
                                  false (present devs a)))) with st.
  assert (Hcl : classify (to_u8 st) = if present devs a then 0 else 1).
  { subst st. now destruct (Z.testbit (probe_byte a) 0), (present devs a). }
  rewrite Hcl. eexists. reflexivity.
Qed.

End SimFacts.

(** ** Sorted lists of addresses *)

Lemma sublist_strongly_sorted (l1 l2 : list Z) :
  sublist l1 l2 -> StronglySorted Z.lt l2 -> StronglySorted Z.lt l1.
Proof.
  induction 1 as [|x l1 l2 Hsub IH|x l1 l2 Hsub IH]; intros Hs.
  - constructor.
  - apply StronglySorted_inv in Hs as [Hs Hx].
    constructor; [now apply IH|].
    apply Forall_forall. intros y Hy.
    rewrite Forall_forall in Hx. apply Hx.
    now apply (elem_of_sublist l1 l2).
  - apply StronglySorted_inv in Hs as [Hs _]. now apply IH.
Qed.

Lemma seqZ_strongly_sorted (m n : Z) : StronglySorted Z.lt (seqZ m n).
Proof.
  remember (Z.to_nat n) as k eqn:Hk.
  revert m n Hk. induction k as [|k IH]; intros m n Hk.
  - rewrite seqZ_nil by lia. constructor.
  - rewrite seqZ_cons by lia. constructor.
    + apply IH. lia.
    + apply Forall_seqZ. intros a Ha. lia.
Qed.

(** * The claims about the scanner *)

(** C1, as stated, fails for the addresses below 16: a device at 0x0a
    acknowledges, and the line printed is the line break followed by
    the single character "a", not by the two characters "0a". *)
Lemma acknowledged_low_address_one_character :
  option_map fst
    (@probe sim (sim_bus [0x0a] 3) (example_twi_h 0) 0x0a 5%nat (power_on sim_idle))
  = Some 0 /\
  option_map (fun r => uart (snd r))
    (@scan_body sim (sim_bus [0x0a] 3) (example_twi_h 0) 0x0a ∅ 5%nat
                (power_on sim_idle))
  = Some (crlf ++ chars "a") /\
  crlf ++ chars "a" <> crlf ++ hex2 0x0a.
Proof.
  split; [vm_compute; reflexivity|].
  split; [vm_compute; reflexivity|].
  vm_compute. discriminate.
Qed.

(** C1, amended: for an address [a] in 8..119 whose probe is
    acknowledged, the body of the loop prints exactly one line, the
    line break followed by the lowercase hexadecimal digits of [a] as
    [itoa] writes them, without a leading zero: one character for
    [a < 16], the two nibbles from 16 on.  Nothing else changes after
    the probe. *)
Theorem acknowledged_address_line
        {H : Type} `{Peripheral H} {cfg : twi_h}
        (a : Z) (fr : gmap nat ascii) (fuel : nat) (w w1 : world H) :
  8 <= a <= 119 ->
  probe a fuel w = Some (0, w1) ->
  exists fr' w',
    scan_body a fr fuel w = Some (fr', w') /\
    hw w' = hw w1 /\
    log w' = log w1 /\
    uart w' = uart w ++ crlf ++ (if a <? 16 then [digit_char a] else hex2 a).
Proof.
  intros Ha Hp.
  rewrite (scan_body_run a fr fuel w w1 0 Ha Hp).
  apply probe_run in Hp as (Hu & _).
  cbn [Z.eqb]. eexists _, _. split; [reflexivity|].
  cbn [hw log uart]. repeat split.
  unfold line. now rewrite Hu, itoa_digits_address.
Qed.

Lemma acknowledged_address_line_witness :
  exists fr' w',
    @scan_body sim (sim_bus [0x3c] 3) (example_twi_h 0) 0x3c ∅ 5%nat
               (power_on sim_idle) = Some (fr', w') /\
    uart w' = crlf ++ chars "3c".
Proof.
  destruct (@acknowledged_address_line sim (sim_bus [0x3c] 3) (example_twi_h 0)
              0x3c ∅ 5%nat (power_on sim_idle)
              (match @probe sim (sim_bus [0x3c] 3) (example_twi_h 0) 0x3c 5%nat
                            (power_on sim_idle) with
               | Some (_, w1) => w1
               | None => power_on sim_idle
               end))
    as (fr' & w' & Hrun & _ & _ & Hout).
  - lia.
  - vm_compute. reflexivity.
  - exists fr', w'. split; [exact Hrun | exact Hout].
Defined.

(** The conversion stays inside [string] exactly for the one-digit
    addresses: from 16 on, the terminating NUL is stored at offset 2. *)
Lemma itoa_stores_in_string_iff (a : Z) :
  8 <= a <= 119 ->
  (forallb (fun st => in_string (fst st)) (itoa_stores a string 16) = true
   <-> a < 16).
Proof.
  intros Ha.
  assert (Hall : forallb
            (fun a => Bool.eqb
               (forallb (fun st => in_string (fst st)) (itoa_stores a string 16))
               (a <? 16))
            (seqZ 8 112) = true) by (vm_compute; reflexivity).
  apply seqZ_forallb with (a := a) in Hall; [|lia].
  apply Bool.eqb_prop in Hall. rewrite Hall. apply Z.ltb_lt.
Qed.

(** C2 does not hold of the code: for the acknowledged address 0x3c
    [itoa] stores "3", "c" and the terminating NUL at offsets 0, 1 and
    2 of [string], and offset 2 is outside the two characters of the
    buffer; after the body of the loop the cell behind the buffer
    holds the NUL. *)
Theorem itoa_terminator_past_string :
  sizeof_string = 2%nat /\
  itoa_stores 0x3c string 16
  = [(0%nat, "3"%char); (1%nat, "c"%char); (2%nat, NUL)] /\
  in_string 2 = false /\
  option_map (fun r => fst r !! 2%nat)
    (@scan_body sim (sim_bus [0x3c] 3) (example_twi_h 0) 0x3c ∅ 5%nat
                (power_on sim_idle))
  = Some (Some NUL).
Proof. repeat split; vm_compute; reflexivity. Qed.

(** C6: when the probe of an address in 8..119 returns "not
    acknowledged", the body of the loop ends in the world the probe
    left: nothing is printed and nothing else is written or read. *)
Theorem not_acknowledged_no_line
        {H : Type} `{Peripheral H} {cfg : twi_h}
        (a : Z) (fr : gmap nat ascii) (fuel : nat) (w w1 : world H) (ack : Z) :
  8 <= a <= 119 ->
  probe a fuel w = Some (ack, w1) ->
  ack <> 0 ->
  ack = 1 /\
  scan_body a fr fuel w = Some (fr, w1) /\
  uart w1 = uart w.
Proof.
  intros Ha Hp Hack.
  rewrite (scan_body_run a fr fuel w w1 ack Ha Hp).
  apply probe_run in Hp as (Hu & [E|E] & _); [contradiction|].
  subst ack. repeat split. exact Hu.
Qed.

Lemma not_acknowledged_no_line_witness :
  option_map (fun r => uart (snd r))
    (@scan_body sim (sim_bus [0x3c] 3) (example_twi_h 0) 0x3d ∅ 5%nat
                (power_on sim_idle))
  = Some [].
Proof.
  destruct (@not_acknowledged_no_line sim (sim_bus [0x3c] 3) (example_twi_h 0)
              0x3d ∅ 5%nat (power_on sim_idle)
              (match @probe sim (sim_bus [0x3c] 3) (example_twi_h 0) 0x3d 5%nat
                            (power_on sim_idle) with
               | Some (_, w1) => w1
               | None => power_on sim_idle
               end) 1)
    as (_ & Hrun & Hout).
  - lia.
  - vm_compute. reflexivity.
  - discriminate.
  - rewrite Hrun. cbn [option_map snd]. now rewrite Hout.
Defined.

(** C5 (on the value the specification gives the missing macro):
    with TWI_WRITE the WRITE_DIRECTION_BIT of the specification, the
    byte handed to [twi_write] for a candidate address [a] is [a]
    shifted left by one with the low bit set, and it is the one byte a
    probe stores to TWDR. *)
Theorem probe_byte_write_direction
        {H : Type} `{Peripheral H} {cfg : twi_h}
        (a : Z) (fuel : nat) (w w' : world H) (ack : Z) :
  TWI_WRITE = WRITE_DIRECTION_BIT ->
  8 <= a <= 119 ->
  probe a fuel w = Some (ack, w') ->
  probe_byte a = Z.lor (Z.shiftl a 1) 1 /\
  Z.testbit (probe_byte a) 0 = true /\
  Z.shiftr (probe_byte a) 1 = a /\
  exists evs,
    log w' = log w ++ evs /\
    List.filter is_write evs
    = [Wr TWCR 0xa4; Wr TWDR (Z.lor (Z.shiftl a 1) 1); Wr TWCR 0x84; Wr TWCR 0x94].
Proof.
  intros HW Ha Hp.
  assert (Hb : probe_byte a = Z.lor (Z.shiftl a 1) 1 /\
               Z.testbit (probe_byte a) 0 = true /\
               Z.shiftr (probe_byte a) 1 = a).
  { unfold probe_byte. rewrite HW. unfold WRITE_DIRECTION_BIT.
    assert (Hall : forallb
              (fun a => (to_u8 (Z.lor (Z.shiftl a 1) 1) =? Z.lor (Z.shiftl a 1) 1)
                        && Z.testbit (to_u8 (Z.lor (Z.shiftl a 1) 1)) 0
                        && (Z.shiftr (to_u8 (Z.lor (Z.shiftl a 1) 1)) 1 =? a))
              (seqZ 8 112) = true) by (vm_compute; reflexivity).
    apply seqZ_forallb with (a := a) in Hall; [|lia].
    apply andb_prop in Hall as [Hall E3]. apply andb_prop in Hall as [E1 E2].
    apply Z.eqb_eq in E1, E3. auto. }
  destruct Hb as (Hb1 & Hb2 & Hb3). repeat split; try assumption.
  apply probe_run in Hp as (_ & _ & evs & Hl & Hf).
  exists evs. split; [exact Hl|]. rewrite Hf. unfold probe_writes.
  now rewrite Hb1.
Qed.

Lemma probe_byte_write_direction_witness :
  @probe_byte (example_twi_h WRITE_DIRECTION_BIT) 0x3c = 0x79 /\
  Z.testbit 0x79 0 = true.
Proof.
  destruct (@probe_byte_write_direction sim (sim_bus [0x3c] 3)
              (example_twi_h WRITE_DIRECTION_BIT) 0x3c 5%nat (power_on sim_idle)
              (match @probe sim (sim_bus [0x3c] 3)
                            (example_twi_h WRITE_DIRECTION_BIT) 0x3c 5%nat
                            (power_on sim_idle) with
               | Some (_, w1) => w1
               | None => power_on sim_idle
               end) 0)
    as (Hb & Hbit & _).
  - reflexivity.
  - lia.
  - vm_compute. reflexivity.
  - rewrite Hb in Hbit. split; [exact Hb | exact Hbit].
Defined.

(** C4: on hardware that answers, a scan returns and the 7-bit
    addresses it puts on the bus are 8, 9, ..., 119: an address is
    probed exactly when it lies in 8..119; 7 and 120 are not probed,
    whatever the devices on the bus. *)
Theorem scan_probes_exactly_8_to_119
        {H : Type} `{Peripheral H} {cfg : twi_h}
        (fuel : nat) (w : world H) :
  0 <= TWI_WRITE <= 1 ->
  responsive fuel ->
  exists w' evs,
    twi_scan fuel w = Some (tt, w') /\
    log w' = log w ++ evs /\
    probed evs = seqZ 8 112 /\
    (forall a, a ∈ probed evs <-> 8 <= a <= 119) /\
    (7 ∉ probed evs) /\
    (120 ∉ probed evs).
Proof.
  intros HW Hresp.
  destruct (scan_list_responsive fuel (seqZ 8 112) Hresp addresses_in_range ∅ w)
    as (fr' & w' & evs & acked & Hrun & Hlog & Hf & _ & _).
  assert (Hp : probed evs = seqZ 8 112).
  { rewrite <- probed_filter, Hf.
    apply probed_probe_writes; [exact HW | exact addresses_in_range]. }
  exists w', evs. rewrite twi_scan_list, Hrun, Hp.
  split; [reflexivity|]. split; [exact Hlog|]. split; [reflexivity|].
  split; [|split].
  - intros a. rewrite elem_of_seqZ. lia.
  - rewrite elem_of_seqZ. lia.
  - rewrite elem_of_seqZ. lia.
Qed.

Lemma scan_probes_exactly_8_to_119_witness :
  exists w' evs,
    @twi_scan sim (sim_bus [7; 0x3c; 120] 3) (example_twi_h 0) 5%nat
              (power_on sim_idle) = Some (tt, w') /\
    log w' = evs /\
    (7 ∉ probed evs) /\ (120 ∉ probed evs).
Proof.
  destruct (@scan_probes_exactly_8_to_119 sim (sim_bus [7; 0x3c; 120] 3)
              (example_twi_h 0) 5%nat (power_on sim_idle))
    as (w' & evs & Hrun & Hlog & _ & _ & H7 & H120).
  - cbn. lia.
  - apply sim_responsive. lia.
  - exists w', evs. repeat split; assumption.
Defined.

(** C7: on hardware that answers, one scan returns and its register
    writes are, for 8, 9, ..., 119 in this order, one start, one
    address byte, one transmit and one stop each, and nothing else;
    the lines printed are those of a sublist of 8..119, hence in
    ascending order of address. *)
Theorem scan_one_probe_each_ascending
        {H : Type} `{Peripheral H} {cfg : twi_h}
        (fuel : nat) (w : world H) :
  responsive fuel ->
  exists w' evs acked,
    twi_scan fuel w = Some (tt, w') /\
    log w' = log w ++ evs /\
    List.filter is_write evs = List.flat_map probe_writes (seqZ 8 112) /\
    sublist acked (seqZ 8 112) /\
    StronglySorted Z.lt acked /\
    uart w' = uart w ++ List.flat_map line acked.
Proof.
  intros Hresp.
  destruct (scan_list_responsive fuel (seqZ 8 112) Hresp addresses_in_range ∅ w)
    as (fr' & w' & evs & acked & Hrun & Hlog & Hf & Hsub & Hout).
  exists w', evs, acked. rewrite twi_scan_list, Hrun.
  repeat split; try assumption.
  apply (sublist_strongly_sorted acked (seqZ 8 112) Hsub).
  apply seqZ_strongly_sorted.
Qed.

Lemma scan_one_probe_each_ascending_witness :
  exists w' evs acked,
    @twi_scan sim (sim_bus [0x68; 0x57] 3) (example_twi_h 0) 5%nat
              (power_on sim_idle) = Some (tt, w') /\
    log w' = evs /\
    List.filter is_write evs
    = List.flat_map (@probe_writes (example_twi_h 0)) (seqZ 8 112) /\
    StronglySorted Z.lt acked /\
    uart w' = List.flat_map line acked.
Proof.
  destruct (@scan_one_probe_each_ascending sim (sim_bus [0x68; 0x57] 3)
              (example_twi_h 0) 5%nat (power_on sim_idle))
    as (w' & evs & acked & Hrun & Hlog & Hf & _ & Hs & Hout).
  - apply sim_responsive. lia.
  - exists w', evs, acked. repeat split; assumption.
Defined.

(** C8: with a fixed set [D] of responding devices, two scans in
    succession both return and each appends the same text, the report
    of [D], to the byte-sink. *)
Theorem scan_twice_same_output
        {H : Type} `{Peripheral H} {cfg : twi_h}
        (D : Z -> bool) (fuel : nat) (w : world H) :
  answers D fuel ->
  exists w1 w2,
    twi_scan fuel w = Some (tt, w1) /\
    twi_scan fuel w1 = Some (tt, w2) /\
    uart w1 = uart w ++ report D /\
    uart w2 = uart w1 ++ report D.
Proof.
  intros Hans.
  destruct (scan_list_answers D fuel (seqZ 8 112) Hans addresses_in_range ∅ w)
    as (fr1 & w1 & Hrun1 & Hout1).
  destruct (scan_list_answers D fuel (seqZ 8 112) Hans addresses_in_range ∅ w1)
    as (fr2 & w2 & Hrun2 & Hout2).
  exists w1, w2. rewrite !twi_scan_list, Hrun1, Hrun2.
  repeat split; assumption.
Qed.

Lemma scan_twice_same_output_witness :
  exists w1 w2,
    @twi_scan sim (sim_bus [0x57; 0x68] 3) (example_twi_h 0) 5%nat
              (power_on sim_idle) = Some (tt, w1) /\
    @twi_scan sim (sim_bus [0x57; 0x68] 3) (example_twi_h 0) 5%nat w1
    = Some (tt, w2) /\
    uart w1 = crlf ++ chars "57" ++ crlf ++ chars "68" /\
    uart w2 = uart w1 ++ crlf ++ chars "57" ++ crlf ++ chars "68".
Proof.
  destruct (@scan_twice_same_output sim (sim_bus [0x57; 0x68] 3)
              (example_twi_h 0) (present [0x57; 0x68]) 5%nat (power_on sim_idle))
    as (w1 & w2 & Hrun1 & Hrun2 & Hout1 & Hout2).
  - apply sim_answers; [cbn; lia | lia].
  - exists w1, w2. split; [exact Hrun1|]. split; [exact Hrun2|].
    split; [exact Hout1 | exact Hout2].
Defined.

(** ** The end-to-end scenarios of the specification, on the simulated bus *)

Example scenario_one_device :
  option_map (fun r => uart (snd r))
    (@twi_scan sim (sim_bus [0x3c] 3) (example_twi_h 0) 5%nat (power_on sim_idle))
  = Some (crlf ++ chars "3c").
Proof. vm_compute. reflexivity. Qed.

Example scenario_two_devices :
  option_map (fun r => uart (snd r))
    (@twi_scan sim (sim_bus [0x68; 0x57] 3) (example_twi_h 0) 5%nat
               (power_on sim_idle))
  = Some (crlf ++ chars "57" ++ crlf ++ chars "68").
Proof. vm_compute. reflexivity. Qed.

Example scenario_no_device :
  option_map (fun r => uart (snd r))
    (@twi_scan sim (sim_bus [] 3) (example_twi_h 0) 5%nat (power_on sim_idle))
  = Some [].
Proof. vm_compute. reflexivity. Qed.

Example scenario_reserved_addresses :
  option_map (fun r => uart (snd r))
    (@twi_scan sim (sim_bus [7; 120] 3) (example_twi_h 0) 5%nat (power_on sim_idle))
  = Some [].
Proof. vm_compute. reflexivity. Qed.

(** A scan on a bus that never raises the flag does not come back. *)
Example scenario_dead_bus (fuel : nat) :
  @twi_scan unit dead_bus (example_twi_h 0) fuel (power_on tt) = None.
Proof.
  rewrite twi_scan_list. rewrite seqZ_cons by lia. cbn [scan_list].
  unfold bind at 1, scan_body, bind at 1, probe, bind at 1.
  rewrite twi_start_run, wait_TWINT_never; [reflexivity|].
  intros k. induction k as [|k IH]; [reflexivity|].
  rewrite flag_at_S. exact IH.
Qed.

(** * Further properties of the driver *)

(** ** Bits *)

Lemma bit_testbit (n i : Z) : 0 <= i -> Z.testbit (bit n) i = (i =? n).
Proof.
  intros Hi. unfold bit. rewrite Z.shiftl_spec by exact Hi.
  destruct (Z.eqb_spec i n) as [-> | Hne].
  - now rewrite Z.sub_diag.
  - destruct (i - n) as [|q|q] eqn:E; [lia | now destruct q | reflexivity].
Qed.

Lemma to_u8_testbit (v i : Z) : 0 <= i < 8 -> Z.testbit (to_u8 v) i = Z.testbit v i.
Proof.
  intros Hi. unfold to_u8. change 256 with (2 ^ 8).
  apply Z.mod_pow2_bits_low. lia.
Qed.

(** ** [twi_init] *)

(** [twi_init] never waits: with any poll budget, on any peripheral, it
    returns after three read-modify-write updates and one store, in
    this order: the two bus pins are cleared in the direction register
    and set in the port register, the two prescaler bits are cleared in
    TWSR, every other bit of the three registers is written back as it
    was read, and TWBR receives the bit-rate value.  TWCR and TWDR are
    not touched and nothing is printed. *)
Theorem twi_init_read_modify_write
        {H : Type} `{Peripheral H} {cfg : twi_h}
        (fuel : nat) (w : world H) :
  exists (d d' p p' s s' : Z) (w' : world H),
    twi_init fuel w = Some (tt, w') /\
    uart w' = uart w /\
    log w' = log w ++ [Rd DDR_TWI_PORT d; Wr DDR_TWI_PORT d';
                       Rd TWI_PORT p; Wr TWI_PORT p';
                       Rd TWSR s; Wr TWSR s';
                       Wr TWBR (to_u8 TWI_BIT_RATE_REG)] /\
    (forall i, 0 <= i < 8 ->
       Z.testbit d' i
       = Z.testbit d i && negb ((i =? TWI_SDA_PIN) || (i =? TWI_SCL_PIN))) /\
    (forall i, 0 <= i < 8 ->
       Z.testbit p' i
       = Z.testbit p i || ((i =? TWI_SDA_PIN) || (i =? TWI_SCL_PIN))) /\
    (forall i, 0 <= i < 8 ->
       Z.testbit s' i = Z.testbit s i && negb ((i =? 1) || (i =? 0))).
Proof.
  unfold twi_init, bind.
  rewrite rd_run, wr_run, rd_run, wr_run, rd_run, wr_run, wr_run.
  eexists _, _, _, _, _, _, _. split; [reflexivity|].
  split; [reflexivity|]. split.
  { cbn [log wrote loaded]. rewrite <- !app_assoc. reflexivity. }
  split; [|split]; intros i Hi.
  - rewrite to_u8_testbit by exact Hi.
    rewrite Z.land_spec, Z.lnot_spec, Z.lor_spec, !bit_testbit by lia.
    reflexivity.
  - rewrite to_u8_testbit by exact Hi.
    rewrite Z.lor_spec, Z.lor_spec, !bit_testbit by lia.
    reflexivity.
  - rewrite to_u8_testbit by exact Hi.
    rewrite Z.land_spec, Z.lnot_spec, Z.lor_spec, !bit_testbit by lia.
    reflexivity.
Qed.

(** ** The wait, poll by poll *)

Section WaitFacts.
Context {H : Type} `{Peripheral H} {cfg : twi_h}.

Lemma while_TWINT_clear_first_flag (k n fuel : nat) (w : world H) :
  (k < n)%nat -> first_flag (hw w) k ->
  exists evs,
    while_TWINT_clear n fuel w
    = Some (tt, World (after_polls (S k) (hw w)) (log w ++ evs) (uart w)) /\
    length evs = S k /\
    forallb is_poll evs = true.
Proof.
  revert n w. induction k as [|k IH]; intros n w Hn [Hk Hbefore];
    (destruct n as [|n]; [lia|]); cbn [while_TWINT_clear]; unfold bind;
    rewrite rd_run.
  - rewrite flag_at_0 in Hk. apply negb_true_iff in Hk. rewrite Hk.
    exists [Rd TWCR (to_u8 (fst (reg_read TWCR (hw w))))].
    repeat split.
  - pose proof (Hbefore 0%nat ltac:(lia)) as Hz.
    rewrite flag_at_0 in Hz. apply negb_false_iff in Hz. rewrite Hz.
    destruct (IH n (loaded TWCR w)) as (evs & Hrun & Hlen & Hpoll).
    { lia. }
    { split.
      - rewrite flag_at_S in Hk. exact Hk.
      - intros j Hj. specialize (Hbefore (S j) ltac:(lia)).
        rewrite flag_at_S in Hbefore. exact Hbefore. }
    exists (Rd TWCR (to_u8 (fst (reg_read TWCR (hw w)))) :: evs).
    rewrite Hrun. cbn [loaded hw log uart after_polls].
    split; [now rewrite <- app_assoc|].
    split; [cbn; now rewrite Hlen | cbn; exact Hpoll].
Qed.

End WaitFacts.

(** [twi_start] stores the start condition and then polls TWCR; it
    returns at the first poll that shows TWINT, having read TWCR once
    per poll and nothing else: with the flag first up at poll [k], the
    call makes exactly [k+1] reads. *)
Theorem twi_start_returns_at_first_flag
        {H : Type} `{Peripheral H} {cfg : twi_h}
        (k fuel : nat) (w : world H) :
  (k < fuel)%nat ->
  first_flag (armed P_start (hw w)) k ->
  exists polls,
    twi_start fuel w
    = Some (tt, World (after_polls (S k) (reg_write TWCR 0xa4 (hw w)))
                      (log w ++ Wr TWCR 0xa4 :: polls)
                      (uart w)) /\
    length polls = S k /\
    forallb is_poll polls = true.
Proof.
  intros Hk Hfirst. rewrite twi_start_run. unfold wait_TWINT.
  destruct (while_TWINT_clear_first_flag k fuel fuel (wrote TWCR 0xa4 w) Hk Hfirst)
    as (evs & Hrun & Hlen & Hpoll).
  exists evs. rewrite Hrun. cbn [wrote hw log uart].
  rewrite <- app_assoc. repeat split; assumption.
Qed.

Lemma twi_start_returns_at_first_flag_witness :
  exists polls,
    @twi_start sim (sim_bus [0x3c] 3) 5%nat (power_on sim_idle)
    = Some (tt, World (Sim (upd TWSR 0x08 (upd TWCR 0xa4 (fun _ => 0)))
                           (Some O) true false)
                      (Wr TWCR 0xa4 :: polls) []) /\
    length polls = 4%nat.
Proof.
  destruct (@twi_start_returns_at_first_flag sim (sim_bus [0x3c] 3)
              (example_twi_h 0) 3%nat 5%nat (power_on sim_idle))
    as (polls & Hrun & Hlen & _).
  - lia.
  - split; [vm_compute; reflexivity|].
    intros j Hj.
    destruct j as [|[|[|j]]]; [vm_compute; reflexivity .. | lia].
  - exists polls. split; [exact Hrun | exact Hlen].
Defined.

(** [twi_read]: the control word carries TWEA exactly when the
    argument, as the [uint8_t] the function receives, equals TWI_ACK;
    it is the only register stored to.  When the flag
    comes up, the call returns the byte it then reads from TWDR, its
    last access, and prints nothing. *)
Theorem twi_read_ack_policy
        {H : Type} `{Peripheral H} {cfg : twi_h}
        (ack : Z) (w : world H) (k fuel : nat) :
  flag_at (armed (P_read ack) (hw w)) k = true ->
  (k < fuel)%nat ->
  exists (ctrl r : Z) (w' : world H) (evs : list event),
    twi_read ack fuel w = Some (r, w') /\
    log w' = log w ++ evs /\
    List.filter is_write evs = [Wr TWCR ctrl] /\
    (Z.testbit ctrl TWEA = true <-> to_u8 ack = TWI_ACK) /\
    Z.testbit ctrl TWINT = true /\
    Z.testbit ctrl TWEN = true /\
    last evs = Some (Rd TWDR r) /\
    0 <= r < 256 /\
    uart w' = uart w.
Proof.
  intros Hflag Hk.
  destruct (wait_TWINT_flag fuel k
              (wrote TWCR (if to_u8 ack =? TWI_ACK then 0xc4 else 0x84) w) Hk Hflag)
    as [w1 Hw1].
  pose proof Hw1 as Hw1'.
  apply wait_TWINT_Some in Hw1' as (Hu & evs1 & Hl & Hf).
  exists (if to_u8 ack =? TWI_ACK then 0xc4 else 0x84),
         (to_u8 (fst (reg_read TWDR (hw w1)))), (loaded TWDR w1),
         ([Wr TWCR (if to_u8 ack =? TWI_ACK then 0xc4 else 0x84)] ++ evs1
          ++ [Rd TWDR (to_u8 (fst (reg_read TWDR (hw w1))))]).
  split; [rewrite twi_read_run, Hw1; reflexivity|].
  split; [cbn [loaded log wrote] in *; rewrite Hl, <- !app_assoc; reflexivity|].
  split; [rewrite !List.filter_app, Hf; reflexivity|].
  split.
  { destruct (Z.eqb_spec (to_u8 ack) TWI_ACK) as [E|N]; split; intros Hx;
      try assumption; try reflexivity; try contradiction.
    vm_compute in Hx. discriminate. }
  split; [now destruct (to_u8 ack =? TWI_ACK)|].
  split; [now destruct (to_u8 ack =? TWI_ACK)|].
  split; [rewrite app_assoc; apply last_snoc|].
  split; [apply to_u8_range|].
  cbn [loaded uart wrote] in *. exact Hu.
Qed.

Lemma twi_read_ack_policy_witness :
  exists (ctrl r : Z) (w' : world sim),
    @twi_read sim (sim_bus [0x3c] 3) (example_twi_h 0) 256 5%nat (power_on sim_idle)
    = Some (r, w') /\
    Z.testbit ctrl TWEA = true /\
    List.filter is_write (log w') = [Wr TWCR ctrl].
Proof.
  destruct (@twi_read_ack_policy sim (sim_bus [0x3c] 3) (example_twi_h 0)
              256 (power_on sim_idle) 3%nat 5%nat)
    as (ctrl & r & w' & evs & Hrun & Hlog & Hf & Hea & _).
  - vm_compute. reflexivity.
  - lia.
  - exists ctrl, r, w'. split; [exact Hrun|].
    split; [apply Hea; reflexivity|].
    rewrite Hlog. exact Hf.
Defined.

(** ** What the primitives store *)

(** A primitive other than [twi_init] that returns has printed nothing
    and has stored to TWCR only ([twi_write]: to TWDR first, then to
    TWCR), with the values of [writes_of]: the status, bit-rate and
    port registers are never written after initialisation. *)
Theorem primitive_stores
        {H : Type} `{Peripheral H} {cfg : twi_h}
        (p : primitive) (fuel : nat) (w w' : world H) (u : unit) :
  p <> P_init ->
  run p fuel w = Some (u, w') ->
  uart w' = uart w /\
  exists evs, log w' = log w ++ evs /\ List.filter is_write evs = writes_of p.
Proof.
  intros Hp. destruct p as [| |data|ack|]; [contradiction| | | |]; cbn [run writes_of].
  - rewrite twi_start_run. intros Hrun.
    apply wait_TWINT_Some in Hrun as (Hu & evs & Hl & Hf).
    cbn [wrote uart log] in *. split; [exact Hu|].
    exists ([Wr TWCR 0xa4] ++ evs). split.
    + now rewrite Hl, <- app_assoc.
    + now rewrite List.filter_app, Hf.
  - unfold bind. rewrite twi_write_run.
    destruct (wait_TWINT fuel _) as [[[] w1]|] eqn:Hw; [|discriminate].
    unfold ret. intros Heq.
    assert (w' = loaded TWSR w1) as -> by congruence.
    apply wait_TWINT_Some in Hw as (Hu & evs & Hl & Hf).
    cbn [wrote loaded uart log] in *. split; [exact Hu|].
    exists ([Wr TWDR (to_u8 data); Wr TWCR 0x84] ++ evs
            ++ [Rd TWSR (to_u8 (fst (reg_read TWSR (hw w1))))]).
    split.
    + rewrite Hl, <- !app_assoc. reflexivity.
    + now rewrite !List.filter_app, Hf.
  - unfold bind. rewrite twi_read_run.
    destruct (wait_TWINT fuel _) as [[[] w1]|] eqn:Hw; [|discriminate].
    unfold ret. intros Heq.
    assert (w' = loaded TWDR w1) as -> by congruence.
    apply wait_TWINT_Some in Hw as (Hu & evs & Hl & Hf).
    cbn [wrote loaded uart log] in *. split; [exact Hu|].
    exists ([Wr TWCR (if to_u8 ack =? TWI_ACK then 0xc4 else 0x84)] ++ evs
            ++ [Rd TWDR (to_u8 (fst (reg_read TWDR (hw w1))))]).
    split.
    + rewrite Hl, <- !app_assoc. reflexivity.
    + now rewrite !List.filter_app, Hf.
  - rewrite twi_stop_run. intros Heq.
    assert (w' = wrote TWCR 0x94 w) as -> by congruence.
    cbn [wrote uart log].
    split; [reflexivity|]. exists [Wr TWCR 0x94]. split; reflexivity.
Qed.

Lemma primitive_stores_witness :
  exists w',
    @run sim (sim_bus [0x3c] 3) (example_twi_h 0) (P_write 0x178) 5%nat
         (power_on sim_idle) = Some (tt, w') /\
    List.filter is_write (log w') = [Wr TWDR 0x78; Wr TWCR 0x84].
Proof.
  set (w1 := match @run sim (sim_bus [0x3c] 3) (example_twi_h 0)
                        (P_write 0x178) 5%nat (power_on sim_idle) with
             | Some (_, w1) => w1
             | None => power_on sim_idle
             end).
  assert (Hrun : @run sim (sim_bus [0x3c] 3) (example_twi_h 0) (P_write 0x178)
                      5%nat (power_on sim_idle) = Some (tt, w1))
    by (vm_compute; reflexivity).
  destruct (@primitive_stores sim (sim_bus [0x3c] 3) (example_twi_h 0)
              (P_write 0x178) 5%nat (power_on sim_idle) w1 tt)
    as (_ & evs & Hl & Hf).
  - discriminate.
  - exact Hrun.
  - exists w1. split; [exact Hrun|].
    rewrite Hl. exact Hf.
Defined.

(** ** A scan on a bus that never completes *)



(** ** The probe byte *)

(** For every 7-bit address, not only those of the scan, the probe
    byte fits eight bits and carries the address in its upper seven
    bits and the direction bit in bit 0: shifting right gives the
    address back. *)
Theorem probe_byte_round_trip {cfg : twi_h} (a : Z) :
  0 <= TWI_WRITE <= 1 ->
  0 <= a <= 127 ->
  0 <= probe_byte a < 256 /\
  Z.shiftr (probe_byte a) 1 = a /\
  Z.land (probe_byte a) 1 = TWI_WRITE.
Proof.
  intros HW Ha. unfold probe_byte.
  assert (Hc : forallb
            (fun a => forallb
               (fun W => (Z.shiftr (to_u8 (Z.lor (Z.shiftl a 1) W)) 1 =? a)
                         && (Z.land (to_u8 (Z.lor (Z.shiftl a 1) W)) 1 =? W))
               [0; 1])
            (seqZ 0 128) = true) by (vm_compute; reflexivity).
  apply seqZ_forallb with (a := a) in Hc; [|lia].
  cbn [forallb] in Hc.
  apply andb_prop in Hc as [C0 C1]. apply andb_prop in C1 as [C1 _].
  split; [apply to_u8_range|].
  assert (HWc : TWI_WRITE = 0 \/ TWI_WRITE = 1) by lia.
  destruct HWc as [-> | ->];
    [apply andb_prop in C0 as [E1 E2] | apply andb_prop in C1 as [E1 E2]];
    split; now apply Z.eqb_eq.
Qed.

Lemma probe_byte_round_trip_witness :
  Z.shiftr (@probe_byte (example_twi_h 0) 0x7f) 1 = 0x7f /\
  Z.land (@probe_byte (example_twi_h 0) 0x7f) 1 = 0.
Proof.
  apply (@probe_byte_round_trip (example_twi_h 0) 0x7f); cbn; lia.
Defined.

(** ** The buffer of the conversion *)

Lemma itoa_stores_in_string_iff_witness :
  forallb (fun st => in_string (fst st)) (itoa_stores 0x0f string 16) = true /\
  forallb (fun st => in_string (fst st)) (itoa_stores 0x10 string 16) <> true.
Proof.
  split.
  - apply (itoa_stores_in_string_iff 0x0f); lia.
  - intros Hin. apply (itoa_stores_in_string_iff 0x10) in Hin; lia.
Defined.

(** ** The text of a report *)

Lemma line_report_chars (a : Z) :
  8 <= a <= 119 ->
  forallb is_report_char (line a) = true /\ (length (line a) <= 4)%nat.
Proof.
  intros Ha.
  assert (Hall : forallb
            (fun a => forallb is_report_char (line a)
                      && (length (line a) <=? 4)%nat)
            (seqZ 8 112) = true) by (vm_compute; reflexivity).
  apply seqZ_forallb with (a := a) in Hall; [|lia].
  apply andb_prop in Hall as [E1 E2]. split; [exact E1|].
  now apply Nat.leb_le.
Qed.

Lemma lines_report_chars (l : list Z) :
  Forall (fun a => 8 <= a <= 119) l ->
  forallb is_report_char (List.flat_map line l) = true /\
  (length (List.flat_map line l) <= 4 * length l)%nat.
Proof.
  induction 1 as [|a l Ha Hl [IH1 IH2]]; [split; [reflexivity | cbn; lia]|].
  destruct (line_report_chars a Ha) as [E1 E2].
  cbn [List.flat_map]. rewrite forallb_app, length_app, E1, IH1.
  split; [reflexivity | cbn [length]; lia].
Qed.

(** On hardware that answers, one scan appends at most 448 characters
    to the byte-sink (112 addresses, four characters a line), and each
    of them is CR, LF, a decimal digit or a letter from a to f. *)
Theorem scan_output_alphabet_and_size
        {H : Type} `{Peripheral H} {cfg : twi_h}
        (fuel : nat) (w : world H) :
  responsive fuel ->
  exists w' out,
    twi_scan fuel w = Some (tt, w') /\
    uart w' = uart w ++ out /\
    forallb is_report_char out = true /\
    (length out <= 448)%nat.
Proof.
  intros Hresp.
  destruct (scan_list_responsive fuel (seqZ 8 112) Hresp addresses_in_range ∅ w)
    as (fr' & w' & evs & acked & Hrun & _ & _ & Hsub & Hout).
  assert (Hin : Forall (fun a => 8 <= a <= 119) acked).
  { apply Forall_forall. intros a Ha.
    pose proof (elem_of_sublist _ _ a Ha Hsub) as Hs.
    apply elem_of_seqZ in Hs. lia. }
  destruct (lines_report_chars acked Hin) as [E1 E2].
  exists w', (List.flat_map line acked). rewrite twi_scan_list, Hrun.
  repeat split; try assumption.
  pose proof (sublist_length _ _ Hsub) as Hlen.
  rewrite length_seqZ in Hlen. lia.
Qed.

Lemma scan_output_alphabet_and_size_witness :
  exists w' out,
    @twi_scan sim (sim_bus [0x3c; 0x0a] 3) (example_twi_h 0) 5%nat
              (power_on sim_idle) = Some (tt, w') /\
    uart w' = out /\
    forallb is_report_char out = true /\
    (length out <= 448)%nat.
Proof.
  destruct (@scan_output_alphabet_and_size sim (sim_bus [0x3c; 0x0a] 3)
              (example_twi_h 0) 5%nat (power_on sim_idle))
    as (w' & out & Hrun & Hout & Hc & Hlen).
  - apply sim_responsive. lia.
  - exists w', out. repeat split; assumption.
Defined.

(** ** The bus is released *)

Section StopFacts.
Context {H : Type} `{Peripheral H} {cfg : twi_h}.

Lemma probe_ends_with_stop (sla : Z) (fuel : nat) (w w' : world H) (ack : Z) :
  probe sla fuel w = Some (ack, w') -> last (log w') = Some (Wr TWCR 0x94).
Proof.
  unfold probe, bind.
  destruct (twi_start fuel w) as [[[] w1]|]; [|discriminate].
  destruct (twi_write (probe_byte sla) fuel w1) as [[r w2]|]; [|discriminate].
  rewrite twi_stop_run. unfold ret. intros Heq.
  assert (w' = wrote TWCR 0x94 w2) as -> by congruence.
  apply last_snoc.
Qed.

Lemma scan_list_ends_with_stop (fuel : nat) (l : list Z) :
  Forall (fun a => 8 <= a <= 119) l ->
  forall (fr fr' : gmap nat ascii) (w w' : world H),
    l <> [] \/ last (log w) = Some (Wr TWCR 0x94) ->
    scan_list l fr fuel w = Some (fr', w') ->
    last (log w') = Some (Wr TWCR 0x94).
Proof.
  induction 1 as [|a l Ha Hl IH]; intros fr fr' w w' Hstart.
  - cbn. unfold ret. intros Heq.
    assert (w' = w) as -> by congruence.
    destruct Hstart as [Hne | Hlast]; [contradiction | exact Hlast].
  - cbn [scan_list]. unfold bind.
    destruct (probe a fuel w) as [[ack w1]|] eqn:Hp.
    + rewrite (scan_body_run a fr fuel w w1 ack Ha Hp).
      apply probe_ends_with_stop in Hp.
      destruct (ack =? 0); apply IH; right; exact Hp.
    + unfold scan_body, bind. rewrite Hp. discriminate.
Qed.

End StopFacts.

(** Every probe ends with the stop condition, acknowledged or not, and
    so does the scan: on hardware that answers, the last register
    access of a scan is the store of TWINT|TWSTO|TWEN to TWCR. *)
Theorem twi_scan_ends_with_stop
        {H : Type} `{Peripheral H} {cfg : twi_h}
        (fuel : nat) (w : world H) :
  responsive fuel ->
  exists w',
    twi_scan fuel w = Some (tt, w') /\
    last (log w') = Some (Wr TWCR 0x94).
Proof.
  intros Hresp.
  destruct (scan_list_responsive fuel (seqZ 8 112) Hresp addresses_in_range ∅ w)
    as (fr' & w' & evs & acked & Hrun & _).
  exists w'. rewrite twi_scan_list, Hrun. split; [reflexivity|].
  apply (scan_list_ends_with_stop fuel (seqZ 8 112) addresses_in_range
           ∅ fr' w w'); [|exact Hrun].
  left. rewrite seqZ_cons by lia. discriminate.
Qed.

Lemma twi_scan_ends_with_stop_witness :
  exists w',
    @twi_scan sim (sim_bus [0x77] 3) (example_twi_h 0) 5%nat (power_on sim_idle)
    = Some (tt, w') /\
    last (log w') = Some (Wr TWCR 0x94).
Proof.
  apply (@twi_scan_ends_with_stop sim (sim_bus [0x77] 3) (example_twi_h 0)).
  apply sim_responsive. lia.
Defined.

(** ** End to end on the simulated bus *)

Lemma report_none (D : Z -> bool) :
  (forall a, 8 <= a <= 119 -> D a = false) -> report D = [].
Proof.
  intros HD. unfold report.
  assert (Hf : forall l, Forall (fun a => 8 <= a <= 119) l -> List.filter D l = []).
  { induction 1 as [|a l Ha Hl IH]; [reflexivity|].
    cbn [List.filter]. now rewrite (HD a Ha). }
  now rewrite (Hf _ addresses_in_range).
Qed.

(** On a bus with the devices [devs], for either direction bit and any
    latency within the poll budget, one scan prints exactly the lines
    of the devices whose address lies in 8..119, in ascending order of
    address; devices at the reserved addresses below 8 or above 119 are
    not reported, so a bus with only such devices gives no output. *)
Theorem sim_scan_reports_devices
        {cfg : twi_h} (devs : list Z) (latency fuel : nat) (w : world sim) :
  0 <= TWI_WRITE <= 1 ->
  (latency < fuel)%nat ->
  exists w',
    @twi_scan sim (sim_bus devs latency) cfg fuel w = Some (tt, w') /\
    uart w' = uart w ++ report (present devs) /\
    ((forall d, d ∈ devs -> d < 8 \/ 119 < d) -> uart w' = uart w).
Proof.
  intros HW Hlat.
  pose proof (sim_answers devs latency fuel HW Hlat) as Hans.
  destruct (@scan_list_answers sim (sim_bus devs latency) cfg (present devs) fuel
              (seqZ 8 112) Hans addresses_in_range ∅ w)
    as (fr' & w' & Hrun & Hout).
  exists w'. rewrite twi_scan_list, Hrun.
  split; [reflexivity|]. split; [exact Hout|].
  intros Hres. fold (report (present devs)) in Hout.
  rewrite Hout, report_none; [apply app_nil_r|].
  intros a Ha. unfold present.
  destruct (existsb (Z.eqb a) devs) eqn:Hex; [|reflexivity].
  apply existsb_exists in Hex as (d & Hd & Heq).
  apply Z.eqb_eq in Heq. subst d.
  apply list_elem_of_In in Hd. apply Hres in Hd. lia.
Qed.

Lemma sim_scan_reports_devices_witness :
  exists w',
    @twi_scan sim (sim_bus [0x76; 3; 0x5c; 0x7b] 2) (example_twi_h 1) 3%nat
              (power_on sim_idle) = Some (tt, w') /\
    uart w' = crlf ++ chars "5c" ++ crlf ++ chars "76".
Proof.
  destruct (@sim_scan_reports_devices (example_twi_h 1) [0x76; 3; 0x5c; 0x7b]
              2%nat 3%nat (power_on sim_idle))
    as (w' & Hrun & Hout & _).
  - cbn. lia.
  - lia.
  - exists w'. split; [exact Hrun | exact Hout].
Defined.

(** ** The [uint8_t] parameters *)

Section ParameterFacts.
Context {H : Type} `{Peripheral H} {cfg : twi_h}.

Lemma to_u8_idem (v : Z) : to_u8 (to_u8 v) = to_u8 v.
Proof. unfold to_u8. apply Z.mod_mod. lia. Qed.

(** Only the low eight bits of the argument of [twi_read] count:
    [twi_read(256)] is [twi_read(0)]. *)
Lemma twi_read_uint8 (ack : Z) (fuel : nat) (w : world H) :
  twi_read ack fuel w = twi_read (to_u8 ack) fuel w /\
  armed (P_read ack) (hw w) = armed (P_read (to_u8 ack)) (hw w) /\
  writes_of (P_read ack) = writes_of (P_read (to_u8 ack)).
Proof.
  unfold twi_read. cbn [armed writes_of]. now rewrite to_u8_idem.
Qed.

(** Likewise for the byte of [twi_write]. *)
Lemma twi_write_uint8 (data : Z) (fuel : nat) (w : world H) :
  twi_write data fuel w = twi_write (to_u8 data) fuel w.
Proof. now rewrite !twi_write_run, to_u8_idem. Qed.

End ParameterFacts.

Example twi_read_256_sets_TWEA :
  option_map (fun r => List.filter is_write (log (snd r)))
    (@twi_read sim (sim_bus [] 1) (example_twi_h 0) 256 3%nat (power_on sim_idle))
  = Some [Wr TWCR 0xc4].
Proof. vm_compute. reflexivity. Qed.
